(** * create-issues.py: issue creation from a list of planned work items

    A shallow embedding of [docs/create-issues.py].  The script loads a list
    of issue records from a JSON file, sorts them by phase and identifier,
    renders a Markdown body for each one and submits it to a remote issue
    tracker, remembering the numbers the tracker returns so that later bodies
    can link to the issues they depend on.

    Conventions of the embedding:
    - Python [str] is [string] (a sequence of bytes; UTF-8 for text outside
      ASCII), Python [int] is [Z].
    - A record of the input file is the [WorkItem] record: every key the
      script reads is present and has the type the input schema gives it.
      The phase is the one field the script itself treats as dynamically
      typed (it is compared with a string and otherwise used as a sort key),
      so it is a [pyval]: an [int] or a [str].
    - Everything the script does to the outside (printing, sleeping, calls of
      the GitHub client) is an [event]; a run is a function from the list of
      events so far to an outcome and the extended list.
    - The remote service is a parameter: a [Remote] says, for each call, what
      the service answers.
    - Not embedded: a record that lacks a key or has a value of another type
      than the input schema gives it, and failures of the client other than
      a [GithubException]. *)

From stdpp Require Import gmap strings list pretty sorting.
From Stdlib Require Import Ascii ZArith Sorting.Permutation.

Local Open Scope Z_scope.

(** ** Python values and text *)

(** The JSON scalars of the embedding, as Python sees them after
    [json.load]: an [int] or a [str].  (Floats, booleans, [null] and nested
    values are not embedded.) *)
Inductive pyval : Type :=
  | PInt (n : Z)
  | PStr (s : string).

(** [str(n)] for an [int]: decimal digits, with a leading minus sign for a
    negative number. *)
Definition str_of_int (n : Z) : string := pretty n.

(** [str(v)], which is what an f-string field [{v}] inserts. *)
Definition py_str (v : pyval) : string :=
  match v with
  | PInt n => str_of_int n
  | PStr s => s
  end.

(** [a == b] on values: an [int] never equals a [str]. *)
Definition py_eq (a b : pyval) : bool :=
  match a, b with
  | PInt x, PInt y => bool_decide (x = y)
  | PStr s, PStr t => bool_decide (s = t)
  | _, _ => false
  end.

(** [c.upper()] on one ASCII character; bytes outside [a-z] are unchanged. *)
Definition upper_ascii (c : ascii) : ascii :=
  let n := nat_of_ascii c in
  if ((97 <=? n)%nat && (n <=? 122)%nat)%bool then ascii_of_nat (n - 32) else c.

(** [s.upper()] on ASCII text, which is what the priority values of the
    input file are ([low], [medium], [high]): the letters [a-z] go to [A-Z]
    and every other character stays.  Python also maps the cased characters
    outside ASCII, some of them to more than one character; the embedding
    does not, so what is proved of [upper] is stated for ASCII text (see
    [is_ascii_text]). *)
Fixpoint upper (s : string) : string :=
  match s with
  | EmptyString => EmptyString
  | String c s' => String (upper_ascii c) (upper s')
  end.

(** The newline character, as written [\n] in the source. *)
Definition nl : string := String (ascii_of_nat 10) EmptyString.

(** [sep.join(l)] *)
Fixpoint join (sep : string) (l : list string) : string :=
  match l with
  | [] => ""
  | [x] => x
  | x :: rest => x +:+ sep +:+ join sep rest
  end.

(** ** The data model *)

(** One record of [data['issues']]. *)
Record WorkItem : Type := mkWorkItem {
  id : Z;
  title : string;
  description : string;
  effort_days : Z;
  priority : string;
  phase : pyval;
  dependencies : list Z;
  acceptance_criteria : list string;
  labels : list string;
}.

(** ** [format_issue_body] *)

(** The loop [for dep in issue['dependencies']: body += f"- Issue {dep}\n"]. *)
Fixpoint dependency_bullets (deps : list Z) : string :=
  match deps with
  | [] => ""
  | dep :: rest => "- Issue " +:+ str_of_int dep +:+ nl +:+ dependency_bullets rest
  end.

(** The text appended under the Dependencies heading: the bullets when the
    list is truthy (not empty), the line [None] otherwise. *)
Definition dependencies_section (deps : list Z) : string :=
  match deps with
  | [] => "None" +:+ nl
  | _ :: _ => dependency_bullets deps
  end.

(** The loop [for ac in issue['acceptance_criteria']: body += f"- {ac}\n"]. *)
Fixpoint criteria_bullets (acs : list string) : string :=
  match acs with
  | [] => ""
  | ac :: rest => "- " +:+ ac +:+ nl +:+ criteria_bullets rest
  end.

(** The triple-quoted f-string that opens the body, up to and including the
    line of the Dependencies heading. *)
Definition body_head (issue : WorkItem) : string :=
  "## Description" +:+ nl +:+
  description issue +:+ nl +:+
  nl +:+
  "## Estimated Effort" +:+ nl +:+
  str_of_int (effort_days issue) +:+ " days" +:+ nl +:+
  nl +:+
  "## Priority" +:+ nl +:+
  upper (priority issue) +:+ nl +:+
  nl +:+
  "## Dependencies" +:+ nl.

(** What follows the dependencies: the acceptance criteria and the phase. *)
Definition body_tail (issue : WorkItem) : string :=
  (nl +:+ "## Acceptance Criteria" +:+ nl) +:+
  criteria_bullets (acceptance_criteria issue) +:+
  (nl +:+ "## Phase" +:+ nl +:+ py_str (phase issue) +:+ nl).

Definition format_issue_body (issue : WorkItem) : string :=
  body_head issue +:+
  dependencies_section (dependencies issue) +:+
  body_tail issue.

(** ** Sorting: [sorted(issues, key=...)] *)

(** The exceptions of the run that no handler of the script catches: the
    [TypeError] of a comparison or of a subscript, the [KeyError] of a
    missing key, and any other, by the name of its class. *)
Inductive exn : Type :=
  | TypeError
  | KeyError
  | OtherException (name : string).

(** A computation that returns a value or raises. *)
Inductive result (A : Type) : Type :=
  | Ok (a : A)
  | Raised (e : exn).
Arguments Ok {A} a.
Arguments Raised {A} e.

#[global] Instance result_bind : MBind result := λ A B k r,
  match r with
  | Ok a => k a
  | Raised e => Raised e
  end.

(** [a < b] on values: integers by value, strings lexicographically by
    character code; Python 3 raises [TypeError] for an [int] against a
    [str]. *)
Definition py_lt (a b : pyval) : result bool :=
  match a, b with
  | PInt x, PInt y => Ok (x <? y)
  | PStr s, PStr t => Ok (String.ltb s t)
  | _, _ => Raised TypeError
  end.

(** The key of the sort: the lambda
    [(0 if x['phase'] == 'cross-cutting' else x['phase'], x['id'])]. *)
Definition sort_key (x : WorkItem) : pyval * Z :=
  (if py_eq (phase x) (PStr "cross-cutting") then PInt 0 else phase x, id x).

(** [k1 < k2] on two key tuples.  Python compares tuples item by item: the
    first pair of items that are not [==] decides, with [<] on that pair. *)
Definition key_lt (k1 k2 : pyval * Z) : result bool :=
  if py_eq k1.1 k2.1 then Ok (k1.2 <? k2.2) else py_lt k1.1 k2.1.

(** [sorted] is a stable sort that compares keys with [<] only, and a
    comparison that raises ends the sort with that exception.  It is embedded
    as a stable insertion sort: [x], which comes before every item of [l] in
    the input, goes in front of the first item that is not smaller than it. *)
Fixpoint insert_by_key (x : WorkItem) (l : list WorkItem) : result (list WorkItem) :=
  match l with
  | [] => Ok [x]
  | y :: l' =>
      smaller ← key_lt (sort_key y) (sort_key x);
      if (smaller : bool) then
        rest ← insert_by_key x l'; Ok (y :: rest)
      else Ok (x :: y :: l')
  end.

Fixpoint sorted_issues (issues : list WorkItem) : result (list WorkItem) :=
  match issues with
  | [] => Ok []
  | x :: rest =>
      rest_sorted ← sorted_issues rest; insert_by_key x rest_sorted
  end.

(** ** The outside world *)

(** What a run does to the outside, in program order. *)
Inductive event : Type :=
  | Print (line : string)
  | GetRepo (token : option string) (repo_name : string)
  | CreateIssue (title body : string) (labels : list string)
  | Sleep (seconds : Z).

(** A [GithubException]: its HTTP status and the text [str(e)] prints. *)
Record GithubException : Type := mkGithubException {
  status : Z;
  text : string;
}.

(** The two ways [repo.create_issue] ends: an issue with its number, or a
    [GithubException]. *)
Inductive response : Type :=
  | Created (number : Z)
  | Failed (e : GithubException).

(** The remote service.  [get_repo] answers a lookup made with a token
    ([None] is success); [create_issue] answers a creation request, given the
    number of requests made before it. *)
Record Remote : Type := mkRemote {
  get_repo : option string → string → option GithubException;
  create_issue : nat → string → string → list string → response;
}.

(** How a piece of the script ends: it returns, calls [sys.exit], or an
    exception escapes. *)
Inductive outcome (A : Type) : Type :=
  | Return (a : A)
  | SysExit (code : Z)
  | Uncaught (e : exn).
Arguments Return {A} a.
Arguments SysExit {A} code.
Arguments Uncaught {A} e.

(** A piece of the script: from the events so far to how it ends and the
    events then. *)
Definition run (A : Type) : Type := list event → outcome A * list event.

#[global] Instance run_ret : MRet run := λ A a tr, (Return a, tr).

#[global] Instance run_bind : MBind run := λ A B k m tr,
  match m tr with
  | (Return a, tr') => k a tr'
  | (SysExit code, tr') => (SysExit code, tr')
  | (Uncaught e, tr') => (Uncaught e, tr')
  end.

Definition emit (e : event) : run unit := λ tr, (Return (), tr ++ [e]).
Definition print (line : string) : run unit := emit (Print line).
Definition sleep (seconds : Z) : run unit := emit (Sleep seconds).
Definition sys_exit {A} (code : Z) : run A := λ tr, (SysExit code, tr).
Definition raise {A} (e : exn) : run A := λ tr, (Uncaught e, tr).

Definition lift_result {A} (r : result A) : run A := λ tr,
  match r with
  | Ok a => (Return a, tr)
  | Raised e => (Uncaught e, tr)
  end.

(** The creation requests among the events, oldest first. *)
Fixpoint requests (tr : list event) : list (string * string * list string) :=
  match tr with
  | [] => []
  | CreateIssue t b ls :: tr' => (t, b, ls) :: requests tr'
  | _ :: tr' => requests tr'
  end.

(** The calls that reach the remote service. *)
Definition is_remote_call (e : event) : bool :=
  match e with
  | GetRepo _ _ | CreateIssue _ _ _ => true
  | Print _ | Sleep _ => false
  end.

Definition remote_calls (tr : list event) : list event :=
  List.filter is_remote_call tr.

(** [g = Github(token); g.get_repo(repo_name)]; a [GithubException] is
    handed back as a value instead of being raised. *)
Definition call_get_repo (R : Remote) (token : option string) (repo_name : string)
    : run (option GithubException) := λ tr,
  (Return (get_repo R token repo_name), tr ++ [GetRepo token repo_name]).

(** [repo.create_issue(title=..., body=..., labels=...)], likewise. *)
Definition call_create_issue (R : Remote) (t b : string) (ls : list string)
    : run response := λ tr,
  (Return (create_issue R (length (requests tr)) t b ls), tr ++ [CreateIssue t b ls]).

(** ** [create_github_issues] *)

(** The title: prefixed with the phase unless the phase is cross-cutting. *)
Definition issue_title (issue_data : WorkItem) : string :=
  if negb (py_eq (phase issue_data) (PStr "cross-cutting"))
  then "Phase " +:+ py_str (phase issue_data) +:+ ": " +:+ title issue_data
  else title issue_data.

(** The inner loop over the dependencies: one line for each dependency that
    is a key of [created_issues]. *)
Fixpoint depends_on_lines (created_issues : gmap Z Z) (deps : list Z) : string :=
  match deps with
  | [] => ""
  | dep_id :: rest =>
      match created_issues !! dep_id with
      | Some issue_number => "- Depends on #" +:+ str_of_int issue_number +:+ nl
      | None => ""
      end +:+ depends_on_lines created_issues rest
  end.

(** What is appended to the body when the dependency list is not empty. *)
Definition related_issues (created_issues : gmap Z Z) (deps : list Z) : string :=
  match deps with
  | [] => ""
  | _ :: _ => (nl +:+ "## Related Issues" +:+ nl) +:+ depends_on_lines created_issues deps
  end.

(** The body as it stands when the labels are read. *)
Definition issue_body (created_issues : gmap Z Z) (issue_data : WorkItem) : string :=
  format_issue_body issue_data +:+
  related_issues created_issues (dependencies issue_data).

(** One iteration of the loop; it returns [created_issues] as the iteration
    leaves it. *)
Definition process_issue (R : Remote) (dry_run : bool)
    (created_issues : gmap Z Z) (issue_data : WorkItem) : run (gmap Z Z) :=
  let issue_id := id issue_data in
  let title := issue_title issue_data in
  let body := issue_body created_issues issue_data in
  let labels := labels issue_data in
  if dry_run then
    print ("Would create: [" +:+ str_of_int issue_id +:+ "] " +:+ title);;
    print ("  Labels: " +:+ join ", " labels);;
    print ("  Priority: " +:+ priority issue_data);;
    print "";;
    mret created_issues
  else
    print ("Creating: [" +:+ str_of_int issue_id +:+ "] " +:+ title);;
    r ← call_create_issue R title body labels;
    match r with
    | Created number =>
        print ("  ✓ Created issue #" +:+ str_of_int number);;
        sleep 1;;
        mret (<[issue_id := number]> created_issues)
    | Failed e =>
        print ("  ✗ Error creating issue: " +:+ text e);;
        if bool_decide (status e = 403) then
          print "  Rate limit may be exceeded. Waiting 60 seconds...";;
          sleep 60;;
          mret created_issues
        else mret created_issues
    end.

(** [for issue_data in issues_sorted: ...] *)
Fixpoint create_loop (R : Remote) (dry_run : bool)
    (created_issues : gmap Z Z) (issues_sorted : list WorkItem) : run (gmap Z Z) :=
  match issues_sorted with
  | [] => mret created_issues
  | issue_data :: rest =>
      created_issues' ← process_issue R dry_run created_issues issue_data;
      create_loop R dry_run created_issues' rest
  end.

Definition create_github_issues (R : Remote) (token : option string)
    (repo_name : string) (issues : list WorkItem) (dry_run : bool) : run unit :=
  r ← call_get_repo R token repo_name;
  match r with
  | Some e =>
      print ("Error accessing repository: " +:+ text e);;
      sys_exit 1
  | None =>
      print ("Connected to repository: " +:+ repo_name);;
      issues_sorted ← lift_result (sorted_issues issues);
      print (nl +:+ "Will create " +:+ str_of_int (Z.of_nat (length issues_sorted)) +:+ " issues");;
      (if dry_run then print ("DRY RUN MODE - No issues will be created" +:+ nl)
       else print "");;
      created_issues ← create_loop R dry_run ∅ issues_sorted;
      print (nl +:+ (if dry_run then "Dry run complete" else "Issue creation complete") +:+ "!");;
      if negb dry_run then
        print ("Created " +:+ str_of_int (Z.of_nat (size created_issues)) +:+ " issues");;
        print ("View at: https://github.com/" +:+ repo_name +:+ "/issues")
      else mret ()
  end.

(** ** [main] and the script *)

(** The command line as [argparse] hands it over. *)
Record Args : Type := mkArgs {
  dry_run : bool;
  token : option string;
  repo : string;
  file : string;
}.

(** The options as typed, before the defaults, on a command line that
    [argparse] accepts. *)
Record CommandLine : Type := mkCommandLine {
  opt_dry_run : bool;
  opt_token : option string;
  opt_repo : option string;
  opt_file : option string;
}.

(** What [argparse] makes of the arguments of the process: options it
    accepts; a request for help, which it answers with the help text; or
    arguments it rejects, which it answers with the usage and an error
    message. *)
Inductive Argv : Type :=
  | Options (c : CommandLine)
  | HelpRequested (help : string)
  | Rejected (usage : string).

Coercion Options : CommandLine >-> Argv.

(** The namespace [parser.parse_args()] returns for options it accepts: the
    token defaults to the environment variable [GITHUB_TOKEN], the
    repository and the file to fixed names. *)
Definition parse_args (environ_token : option string) (c : CommandLine) : Args :=
  {| dry_run := opt_dry_run c;
     token := match opt_token c with Some t => Some t | None => environ_token end;
     repo := default "jarz/SecureSpec.AspNetCore" (opt_repo c);
     file := default "issues.json" (opt_file c) |}.

(** How [load_issues] ends on a file: the two exceptions [main] handles; any
    other exception, such as the [KeyError] of [data['issues']] on a file
    without that key, or the [TypeError] of the same subscript on a file
    that holds a list; or the records of the file. *)
Inductive load_result : Type :=
  | FileNotFoundError
  | JSONDecodeError (msg : string)
  | LoadRaises (e : exn)
  | Loaded (issues : list WorkItem).

(** What the script finds around it. *)
Record Env : Type := mkEnv {
  pygithub_installed : bool;
  environ_token : option string;
  load_issues : string → load_result;
  remote : Remote;
}.

(** [not args.token]: true for [None] and for the empty string. *)
Definition token_missing (t : option string) : bool :=
  match t with
  | None => true
  | Some s => bool_decide (s = "")
  end.

(** [main].  [parser.parse_args()] ends the process with status 0 after the
    help text and with status 2 after the usage and the error message (which
    it writes to the standard error stream; the embedding has one kind of
    printing).  An exception of [load_issues] other than the two handled
    ones escapes. *)
Definition main (env : Env) (argv : Argv) : run unit :=
  match argv with
  | HelpRequested help => print help;; sys_exit 0
  | Rejected usage => print usage;; sys_exit 2
  | Options c =>
      let args := parse_args (environ_token env) c in
      (if (negb (dry_run args) && token_missing (token args))%bool then
         print "Error: GitHub token required";;
         print "Provide via --token argument or GITHUB_TOKEN environment variable";;
         print "Create a token at: https://github.com/settings/tokens";;
         print "Required scopes: repo";;
         sys_exit 1
       else mret ());;
      issues ←
        match load_issues env (file args) with
        | Loaded issues =>
            print ("Loaded " +:+ str_of_int (Z.of_nat (length issues)) +:+
                   " issues from " +:+ file args);;
            mret issues
        | FileNotFoundError =>
            print ("Error: " +:+ file args +:+ " not found");;
            sys_exit 1
        | JSONDecodeError msg =>
            print ("Error parsing JSON: " +:+ msg);;
            sys_exit 1
        | LoadRaises e => raise e
        end;
      create_github_issues (remote env) (token args) (repo args) issues (dry_run args)
  end.

(** The script from its first line: the import of the client library, which
    ends the process when it fails, then [main]. *)
Definition script (env : Env) (argv : Argv) : run unit :=
  if pygithub_installed env then main env argv
  else
    print "Error: PyGithub not installed";;
    print "Install it with: pip install PyGithub";;
    sys_exit 1.

(** The exit status of the process: [0] when the script runs to its end, the
    argument of [sys.exit], and [1] when an exception escapes. *)
Definition exit_status {A} (o : outcome A) : Z :=
  match o with
  | Return _ => 0
  | SysExit code => code
  | Uncaught _ => 1
  end.

Definition exit_code (env : Env) (argv : Argv) : Z :=
  exit_status (script env argv []).1.

Definition events_of (env : Env) (argv : Argv) : list event :=
  (script env argv []).2.

(** ** Vocabulary of the properties *)

(** [s] occurs in [body]: some text, then [s] character for character, then
    the rest. *)
Definition occurs_in (s body : string) : Prop :=
  ∃ pre post, body = pre +:+ s +:+ post.

(** [line] is a whole line of [body], between two newlines. *)
Definition has_line (line body : string) : Prop :=
  occurs_in (nl +:+ line +:+ nl) body.





(** The three kinds of phase: the reserved marker, a number, other text. *)
Definition cross_cutting (x : WorkItem) : Prop := phase x = PStr "cross-cutting".
Definition numbered (x : WorkItem) : Prop := ∃ n, phase x = PInt n.
Definition other_text_phase (x : WorkItem) : Prop :=
  ∃ s, phase x = PStr s ∧ s ≠ "cross-cutting".

(** Every cross-cutting item stands before every item with a numbered
    phase. *)
Definition cross_cutting_first (l : list WorkItem) : Prop :=
  ∀ i j a b, l !! i = Some a → l !! j = Some b →
    cross_cutting a → numbered b → (i < j)%nat.

(** Items of one group, that is of the same phase, stand in ascending order
    of their identifiers. *)
Definition ascending_ids_within_phase (l : list WorkItem) : Prop :=
  ∀ i j a b, (i < j)%nat → l !! i = Some a → l !! j = Some b →
    phase a = phase b → id a ≤ id b.

(** The other reading of "group", all numbered items taken together: they
    stand in ascending order of their identifiers. *)
Definition ascending_ids_among_numbered (l : list WorkItem) : Prop :=
  ∀ i j a b, (i < j)%nat → l !! i = Some a → l !! j = Some b →
    numbered a → numbered b → id a ≤ id b.

(** The number a phase counts as in the sort key, when it is not other
    text. *)
Definition phase_rank (x : WorkItem) : Z :=
  match phase x with
  | PInt n => n
  | PStr _ => 0
  end.

(** The order of the keys of items whose phase is a number or the marker:
    by rank, then by identifier. *)
Definition key_le (a b : WorkItem) : Prop :=
  phase_rank a < phase_rank b ∨ (phase_rank a = phase_rank b ∧ id a ≤ id b).

(** Whether the first item of the key is an [int]. *)
Definition key_is_int (x : WorkItem) : bool :=
  match (sort_key x).1 with
  | PInt _ => true
  | PStr _ => false
  end.

(** What a dry run prints for one item. *)
Definition dry_report (x : WorkItem) : list event :=
  [Print ("Would create: [" +:+ str_of_int (id x) +:+ "] " +:+ issue_title x);
   Print ("  Labels: " +:+ join ", " (labels x));
   Print ("  Priority: " +:+ priority x);
   Print ""].

(** What follows the answer [r] of the service to a creation request. *)
Definition after_response (r : response) : list event :=
  match r with
  | Created number =>
      [Print ("  ✓ Created issue #" +:+ str_of_int number); Sleep 1]
  | Failed e =>
      Print ("  ✗ Error creating issue: " +:+ text e) ::
      (if bool_decide (status e = 403)
       then [Print "  Rate limit may be exceeded. Waiting 60 seconds..."; Sleep 60]
       else [])
  end.

(** The events of one iteration of a real run: the announcement, the one
    request with the body as it stands, and what follows the answer [r]. *)
Definition attempt (x : WorkItem) (body : string) (r : response) : list event :=
  [Print ("Creating: [" +:+ str_of_int (id x) +:+ "] " +:+ issue_title x);
   CreateIssue (issue_title x) body (labels x)] ++ after_response r.

(** [created_issues] after the answer [r] to the request for [x]. *)
Definition record_response (created_issues : gmap Z Z) (x : WorkItem) (r : response)
    : gmap Z Z :=
  match r with
  | Created number => <[id x := number]> created_issues
  | Failed _ => created_issues
  end.

(** Printing is the one event that does not leave the process. *)
Definition is_print (e : event) : bool :=
  match e with
  | Print _ => true
  | GetRepo _ _ | CreateIssue _ _ _ | Sleep _ => false
  end.

(** The events of a run other than printing. *)
Definition effects (tr : list event) : list event :=
  List.filter (λ e, negb (is_print e)) tr.

(** The four conditions under which the script calls [sys.exit(1)] from
    [main] or [create_github_issues]: no token without the dry-run flag, no
    input file, an input file that is not JSON, a repository that cannot be
    reached. *)
Definition fatal_condition (env : Env) (c : CommandLine) : bool :=
  let args := parse_args (environ_token env) c in
  (negb (dry_run args) && token_missing (token args))
  || match load_issues env (file args) with
     | FileNotFoundError | JSONDecodeError _ => true
     | LoadRaises _ | Loaded _ => false
     end
  || bool_decide (get_repo (remote env) (token args) (repo args) ≠ None).

(** The input file loads and sorting its records raises. *)
Definition sort_raises (env : Env) (c : CommandLine) : bool :=
  match load_issues env (file (parse_args (environ_token env) c)) with
  | Loaded issues =>
      match sorted_issues issues with
      | Raised _ => true
      | Ok _ => false
      end
  | FileNotFoundError | JSONDecodeError _ | LoadRaises _ => false
  end.

(** [load_issues] raises an exception that [main] does not handle. *)
Definition load_raises (env : Env) (c : CommandLine) : bool :=
  match load_issues env (file (parse_args (environ_token env) c)) with
  | LoadRaises _ => true
  | FileNotFoundError | JSONDecodeError _ | Loaded _ => false
  end.

(** ** Example data *)

Definition work_item (i : Z) (p : pyval) (deps : list Z) : WorkItem :=
  mkWorkItem i "Title" "Description." 1 "medium" p deps ["Done"] ["enhancement"].

(** A collection with a phase numbered 0. *)
Definition phase_zero_input : list WorkItem :=
  [work_item 2 (PStr "cross-cutting") []; work_item 1 (PInt 0) []].

Definition phase_zero_sorted : list WorkItem :=
  [work_item 1 (PInt 0) []; work_item 2 (PStr "cross-cutting") []].

(** A collection with only positive phases next to the marker. *)
Definition positive_phase_input : list WorkItem :=
  [work_item 5 (PInt 2) []; work_item 3 (PInt 1) [];
   work_item 9 (PStr "cross-cutting") []; work_item 2 (PInt 2) []].

(** A collection with a phase that is other text. *)
Definition mixed_phase_input : list WorkItem :=
  [work_item 1 (PStr "alpha") []; work_item 2 (PInt 1) []].

Definition item_without_dependencies : WorkItem :=
  mkWorkItem 1 "Threat model" "Write it down." 3 "high" (PStr "cross-cutting")
    [] ["Reviewed"] ["docs"].

(** A service that accepts every lookup and numbers the issues from 100. *)
Definition numbering_remote : Remote :=
  mkRemote (λ _ _, None) (λ n _ _ _, Created (100 + Z.of_nat n)).

(** A service that accepts every lookup and answers every creation request
    with status 403. *)
Definition rate_limited_remote : Remote :=
  mkRemote (λ _ _, None) (λ _ _ _ _, Failed (mkGithubException 403 "rate limit exceeded")).

(** The two items of the example: the second depends on the first. *)
Definition first_item : WorkItem := work_item 1 (PStr "cross-cutting") [].
Definition second_item : WorkItem := work_item 2 (PInt 1) [1].

(** The example of the specification, with the records in reverse order in
    the file: a real run against the numbering service. *)
Definition example_env : Env :=
  mkEnv true None (λ _, Loaded [second_item; first_item]) numbering_remote.

Definition example_command : CommandLine :=
  mkCommandLine false (Some "token") None None.

(** The same records in a dry run without a token. *)
Definition dry_command : CommandLine := mkCommandLine true None None None.

(** A file whose records have phases of both kinds. *)
Definition mixed_env : Env :=
  mkEnv true None (λ _, Loaded mixed_phase_input) numbering_remote.

(** ** Vocabulary of the further properties *)

#[global] Instance pyval_eq_dec : EqDecision pyval.
Proof. solve_decision. Defined.

(** The items of [l] whose sort key is [k], in the order they have in [l]. *)
Definition items_with_key (k : pyval * Z) (l : list WorkItem) : list WorkItem :=
  filter (λ x, sort_key x = k) l.

(** [body] begins with [prefix]. *)
Definition starts_with (prefix body : string) : Prop :=
  ∃ rest, body = prefix +:+ rest.

(** The pauses among the events, oldest first. *)
Fixpoint sleeps (tr : list event) : list Z :=
  match tr with
  | [] => []
  | Sleep seconds :: tr' => seconds :: sleeps tr'
  | _ :: tr' => sleeps tr'
  end.

(** The conditions [main] checks before it calls [create_github_issues]: no
    token without the dry-run flag, no input file, an input file that is not
    JSON. *)
Definition local_failure (env : Env) (c : CommandLine) : bool :=
  let args := parse_args (environ_token env) c in
  (negb (dry_run args) && token_missing (token args))
  || match load_issues env (file args) with
     | FileNotFoundError | JSONDecodeError _ => true
     | LoadRaises _ | Loaded _ => false
     end.

(** What the service answers to the requests [rq], the first of which is its
    request number [n0]. *)
Fixpoint answers (R : Remote) (n0 : nat) (rq : list (string * string * list string))
    : list response :=
  match rq with
  | [] => []
  | (t, b, ls) :: rq' => create_issue R n0 t b ls :: answers R (S n0) rq'
  end.

Definition is_created (r : response) : bool :=
  match r with
  | Created _ => true
  | Failed _ => false
  end.

(** The pause that follows an answer: 1 after an issue, 60 after a failure
    with status 403, none after any other failure. *)
Definition pause_after (r : response) : list Z :=
  match r with
  | Created _ => [1]
  | Failed e => if bool_decide (status e = 403) then [60] else []
  end.

(** The pauses that follow a list of answers, in order. *)
Definition pauses_for (rs : list response) : list Z :=
  concat (pause_after <$> rs).

(** How many of the answers are issues. *)
Definition created_count (rs : list response) : nat :=
  length (List.filter is_created rs).

(** Two records with the same phase and identifier, told apart by their
    titles, around a record that sorts before them. *)
Definition twin_first : WorkItem :=
  mkWorkItem 4 "First twin" "Description." 1 "low" (PInt 2) [] [] [].
Definition twin_second : WorkItem :=
  mkWorkItem 4 "Second twin" "Description." 1 "low" (PInt 2) [] [] [].
Definition twins_input : list WorkItem :=
  [twin_first; work_item 3 (PInt 1) []; twin_second].

(** A file that is not there. *)
Definition missing_file_env : Env :=
  mkEnv true (Some "token") (λ _, FileNotFoundError) numbering_remote.

(** A file that is JSON but has no key [issues]. *)
Definition keyless_file_env : Env :=
  mkEnv true (Some "token") (λ _, LoadRaises KeyError) numbering_remote.

(** A repository that cannot be reached. *)
Definition unreachable_env : Env :=
  mkEnv true None (λ _, Loaded [second_item; first_item])
    (mkRemote (λ _ _, Some (mkGithubException 404 "Not Found"))
              (λ n _ _ _, Created (100 + Z.of_nat n))).

(** * Properties *)

(** ** Text: concatenation and occurrence *)

Section Text.

Implicit Types s t u body : string.

Lemma string_app_assoc s t u : (s +:+ t) +:+ u = s +:+ (t +:+ u).
Proof.
  induction s as [|c s IH]; [reflexivity|].
  change (String c ((s +:+ t) +:+ u) = String c (s +:+ (t +:+ u))).
  by rewrite IH.
Qed.

Lemma string_app_nil_r s : s +:+ "" = s.
Proof.
  induction s as [|c s IH]; [reflexivity|].
  change (String c (s +:+ "") = String c s). by rewrite IH.
Qed.

Lemma string_app_length s t :
  String.length (s +:+ t) = (String.length s + String.length t)%nat.
Proof.
  induction s as [|c s IH]; [reflexivity|].
  change (S (String.length (s +:+ t)) = S (String.length s + String.length t)).
  by rewrite IH.
Qed.

Lemma occurs_in_here s post : occurs_in s (s +:+ post).
Proof. by exists "", post. Qed.

Lemma occurs_in_end s : occurs_in s s.
Proof. exists "", "". by rewrite string_app_nil_r. Qed.

Lemma occurs_in_skip t s body : occurs_in s body → occurs_in s (t +:+ body).
Proof.
  intros (pre & post & ->). exists (t +:+ pre), post.
  by rewrite string_app_assoc.
Qed.

Lemma occurs_in_left s t body : occurs_in s t → occurs_in s (t +:+ body).
Proof.
  intros (pre & post & ->). exists pre, (post +:+ body).
  by rewrite !string_app_assoc.
Qed.

Lemma occurs_in_trans s t body : occurs_in s t → occurs_in t body → occurs_in s body.
Proof.
  intros (p1 & q1 & ->) (p2 & q2 & ->). exists (p2 +:+ p1), (q1 +:+ q2).
  by rewrite !string_app_assoc.
Qed.

Lemma occurs_in_length s body :
  occurs_in s body → (String.length s ≤ String.length body)%nat.
Proof. intros (pre & post & ->). rewrite !string_app_length. lia. Qed.

End Text.

(** Finds [s] in a body written as a chain of concatenations. *)
Ltac find_occurrence :=
  repeat first
    [ apply occurs_in_here
    | apply occurs_in_end
    | apply occurs_in_skip ].

(** ** The renderer *)

Section Renderer.

Implicit Types issue : WorkItem.

Lemma description_in_body issue :
  occurs_in ("## Description" +:+ nl +:+ description issue +:+ nl)
            (format_issue_body issue).
Proof.
  unfold format_issue_body, body_head.
  exists "". eexists. rewrite !string_app_assoc. reflexivity.
Qed.

Lemma effort_in_body issue :
  occurs_in ("## Estimated Effort" +:+ nl +:+
             str_of_int (effort_days issue) +:+ " days" +:+ nl)
            (format_issue_body issue).
Proof.
  unfold format_issue_body, body_head.
  rewrite !string_app_assoc.
  do 5 apply occurs_in_skip.
  eexists "", _. rewrite !string_app_assoc. reflexivity.
Qed.

Lemma criterion_in_bullets ac (acs : list string) :
  ac ∈ acs → occurs_in ("- " +:+ ac +:+ nl) (criteria_bullets acs).
Proof.
  induction 1 as [ac acs|ac ac' acs _ IH]; cbn [criteria_bullets].
  - eexists "", _. rewrite !string_app_assoc. reflexivity.
  - by do 3 apply occurs_in_skip.
Qed.

Lemma criterion_in_body issue ac :
  ac ∈ acceptance_criteria issue →
  occurs_in ("- " +:+ ac +:+ nl) (format_issue_body issue).
Proof.
  intros Hin. unfold format_issue_body, body_tail.
  do 3 apply occurs_in_skip. apply occurs_in_left.
  by apply criterion_in_bullets.
Qed.

End Renderer.

Section RendererClaims.

Implicit Types issue : WorkItem.



(** C7: the rendered body contains the description, the effort value and
    every acceptance criterion of the item, character for character. *)
Theorem C7_body_contains_fields_verbatim issue :
  occurs_in (description issue) (format_issue_body issue) ∧
  occurs_in (str_of_int (effort_days issue)) (format_issue_body issue) ∧
  Forall (λ ac, occurs_in ac (format_issue_body issue)) (acceptance_criteria issue).
Proof.
  split_and!.
  - eapply occurs_in_trans; [|apply description_in_body]. find_occurrence.
  - eapply occurs_in_trans; [|apply effort_in_body]. find_occurrence.
  - apply Forall_forall. intros ac Hin.
    eapply occurs_in_trans; [|by apply criterion_in_body]. find_occurrence.
Qed.

(** C8: with an empty dependency list the Dependencies heading is followed by
    the line [None] and then directly by the blank line and the next heading;
    the text put under the heading holds no dependency bullet. *)
Theorem C8_empty_dependencies_render_none issue :
  dependencies issue = [] →
  format_issue_body issue =
    ("## Description" +:+ nl +:+ description issue +:+ nl +:+ nl +:+
     "## Estimated Effort" +:+ nl +:+
       str_of_int (effort_days issue) +:+ " days" +:+ nl +:+ nl +:+
     "## Priority" +:+ nl +:+ upper (priority issue) +:+ nl +:+ nl) +:+
    ("## Dependencies" +:+ nl +:+ "None" +:+ nl +:+
     nl +:+ "## Acceptance Criteria" +:+ nl) +:+
    (criteria_bullets (acceptance_criteria issue) +:+
     nl +:+ "## Phase" +:+ nl +:+ py_str (phase issue) +:+ nl) ∧
  dependencies_section (dependencies issue) = "None" +:+ nl ∧
  ¬ occurs_in "- Issue " (dependencies_section (dependencies issue)).
Proof.
  intros Hdeps. unfold format_issue_body, body_head, body_tail.
  rewrite Hdeps. cbn [dependencies_section]. split_and!.
  - rewrite !string_app_assoc. reflexivity.
  - reflexivity.
  - intros Hocc%occurs_in_length. vm_compute in Hocc. lia.
Qed.

Lemma C8_witness :
  dependencies_section (dependencies item_without_dependencies) = "None" +:+ nl.
Proof.
  apply (C8_empty_dependencies_render_none item_without_dependencies). reflexivity.
Defined.



End RendererClaims.

(** ** The sort *)

Section Ordering.

Implicit Types x y a b : WorkItem.
Implicit Types l issues : list WorkItem.

Lemma cross_cutting_key x : cross_cutting x → sort_key x = (PInt 0, id x).
Proof. unfold cross_cutting, sort_key. by intros ->. Qed.

Lemma numbered_key x n : phase x = PInt n → sort_key x = (PInt n, id x).
Proof. unfold sort_key. by intros ->. Qed.

Lemma other_text_key x s :
  phase x = PStr s → s ≠ "cross-cutting" → sort_key x = (PStr s, id x).
Proof.
  unfold sort_key. intros -> Hs. cbn [py_eq].
  by rewrite bool_decide_eq_false_2.
Qed.

(** The key of an item whose phase is the marker or a number. *)
Lemma ranked_key x :
  cross_cutting x ∨ numbered x → sort_key x = (PInt (phase_rank x), id x).
Proof.
  unfold phase_rank. intros [Hcc|[n Hn]].
  - rewrite (cross_cutting_key x Hcc). by rewrite Hcc.
  - rewrite (numbered_key x n Hn). by rewrite Hn.
Qed.

Lemma key_lt_ranked x y :
  cross_cutting x ∨ numbered x → cross_cutting y ∨ numbered y →
  key_lt (sort_key y) (sort_key x) = Ok (bool_decide (¬ key_le x y)).
Proof.
  intros Hx Hy. rewrite (ranked_key x Hx), (ranked_key y Hy).
  unfold key_lt, key_le. cbn [fst snd py_eq py_lt].
  case_bool_decide as Heq; f_equal.
  - destruct (Z.ltb_spec (id y) (id x));
      [rewrite bool_decide_eq_true_2|rewrite bool_decide_eq_false_2]; lia.
  - destruct (Z.ltb_spec (phase_rank y) (phase_rank x));
      [rewrite bool_decide_eq_true_2|rewrite bool_decide_eq_false_2]; lia.
Qed.

Lemma key_le_trans a b c : key_le a b → key_le b c → key_le a c.
Proof. unfold key_le. lia. Qed.

Lemma key_le_total a b : key_le a b ∨ key_le b a.
Proof. unfold key_le. lia. Qed.

Lemma insert_by_key_perm x l l' : insert_by_key x l = Ok l' → l' ≡ₚ x :: l.
Proof.
  revert l'. induction l as [|y l IH]; intros l'; cbn [insert_by_key].
  - by intros [= <-].
  - destruct (key_lt (sort_key y) (sort_key x)) as [[]|]; cbn; [|by intros [= <-]|done].
    destruct (insert_by_key x l) as [r|]; cbn; [|done].
    intros [= <-]. rewrite (IH r eq_refl). apply Permutation_swap.
Qed.

Lemma sorted_issues_perm issues l : sorted_issues issues = Ok l → l ≡ₚ issues.
Proof.
  revert l. induction issues as [|x rest IH]; intros l; cbn [sorted_issues].
  - by intros [= <-].
  - destruct (sorted_issues rest) as [r|]; cbn; [|done].
    intros Hins%insert_by_key_perm. by rewrite Hins, (IH r eq_refl).
Qed.

(** Inserting among items whose keys are all integers succeeds and keeps the
    list ordered. *)
Lemma insert_by_key_sorted x l :
  cross_cutting x ∨ numbered x →
  Forall (λ y, cross_cutting y ∨ numbered y) l →
  StronglySorted key_le l →
  ∃ l', insert_by_key x l = Ok l' ∧ StronglySorted key_le l'.
Proof.
  intros Hx. induction l as [|y l IH]; intros Hl Hs; cbn [insert_by_key].
  - eexists. split; [done|]. repeat constructor.
  - apply Forall_cons in Hl as [Hy Hl].
    apply StronglySorted_inv in Hs as [Hs Hyl].
    rewrite (key_lt_ranked x y Hx Hy). cbn.
    case_bool_decide as Hlt.
    + destruct (IH Hl Hs) as (r & Hr & Hsr). rewrite Hr. cbn.
      eexists. split; [done|]. constructor; [done|].
      rewrite (insert_by_key_perm _ _ _ Hr). constructor; [|done].
      destruct (key_le_total x y); [done|tauto].
    + eexists. split; [done|].
      assert (key_le x y) as Hxy by (destruct (decide (key_le x y)); [done|tauto]).
      constructor; [by constructor|]. constructor; [done|].
      eapply Forall_impl; [exact Hyl|]. intros z. by apply key_le_trans.
Qed.

Lemma sorted_issues_sorted issues :
  Forall (λ y, cross_cutting y ∨ numbered y) issues →
  ∃ l, sorted_issues issues = Ok l ∧ StronglySorted key_le l.
Proof.
  induction issues as [|x rest IH]; intros Hall; cbn [sorted_issues].
  - eexists. split; [done|]. constructor.
  - apply Forall_cons in Hall as [Hx Hrest].
    destruct (IH Hrest) as (r & Hr & Hsr). rewrite Hr. cbn.
    apply insert_by_key_sorted; [done| |done].
    by rewrite (sorted_issues_perm _ _ Hr).
Qed.

Lemma StronglySorted_lookup {A} (R : relation A) (s : list A) i j (u v : A) :
  StronglySorted R s → (i < j)%nat → s !! i = Some u → s !! j = Some v → R u v.
Proof.
  intros Hs. revert i j. induction Hs as [|w s Hs IH Hx]; intros i j Hij Hi Hj.
  - done.
  - destruct j as [|j]; [lia|]. cbn in Hj. destruct i as [|i]; cbn in Hi.
    + injection Hi as ->. rewrite Forall_forall in Hx.
      apply Hx. by eapply list_elem_of_lookup_2.
    + eapply (IH i j); [lia|done..].
Qed.

End Ordering.

Section OrderingClaims.

Implicit Types x y a b : WorkItem.
Implicit Types l issues : list WorkItem.

(** A sort that succeeds has only compared keys of one kind. *)
Lemma key_lt_ok_same_kind x y r :
  key_lt (sort_key y) (sort_key x) = Ok r → key_is_int y = key_is_int x.
Proof.
  unfold key_lt, key_is_int.
  destruct (sort_key y).1, (sort_key x).1; cbn; done.
Qed.

Lemma insert_by_key_same_kind x y l l' :
  insert_by_key x (y :: l) = Ok l' → key_is_int y = key_is_int x.
Proof.
  cbn [insert_by_key].
  destruct (key_lt (sort_key y) (sort_key x)) as [r|] eqn:Hlt; cbn; [|done].
  intros _. by eapply key_lt_ok_same_kind.
Qed.

Lemma sorted_issues_same_kind issues l :
  sorted_issues issues = Ok l →
  ∃ k, Forall (λ y, key_is_int y = k) issues.
Proof.
  revert l. induction issues as [|x rest IH]; intros l; cbn [sorted_issues].
  - intros _. by exists true.
  - destruct (sorted_issues rest) as [r|] eqn:Hr; cbn; [|done].
    intros Hins. destruct (IH r eq_refl) as [k Hk].
    apply sorted_issues_perm in Hr.
    destruct r as [|y r].
    + apply Permutation_nil_l in Hr as <-. exists (key_is_int x). by constructor.
    + exists k. constructor; [|done].
      rewrite <-(insert_by_key_same_kind _ _ _ _ Hins).
      rewrite <-Hr in Hk. by apply Forall_cons in Hk as [? _].
Qed.

Lemma key_lt_same_kind_ok x y :
  key_is_int y = key_is_int x → ∃ r, key_lt (sort_key y) (sort_key x) = Ok r.
Proof.
  unfold key_lt, key_is_int.
  destruct (sort_key y).1, (sort_key x).1; cbn; try done;
    case_bool_decide; eauto.
Qed.

Lemma insert_by_key_one_kind x l k :
  key_is_int x = k → Forall (λ y, key_is_int y = k) l →
  ∃ l', insert_by_key x l = Ok l'.
Proof.
  intros Hx. induction 1 as [|y l Hy _ [r Hr]]; cbn [insert_by_key]; [eauto|].
  destruct (key_lt_same_kind_ok x y) as [b ->]; [congruence|]. cbn.
  destruct b; [|eauto]. rewrite Hr. cbn. eauto.
Qed.

(** The sort raises exactly when the keys are not all of one kind, which is
    so for every order in which a sort may compare them: no comparison within
    a kind raises, and a sort that has compared no [int] with a [str] cannot
    know how to order the two kinds. *)
Lemma sorted_issues_ok_iff issues :
  (∃ l, sorted_issues issues = Ok l) ↔
  ∃ k, Forall (λ y, key_is_int y = k) issues.
Proof.
  split; [intros [l Hl]; by eapply sorted_issues_same_kind|].
  intros [k Hk]. induction Hk as [|x rest Hx Hrest [r Hr]]; cbn [sorted_issues].
  - eauto.
  - rewrite Hr. cbn. apply (insert_by_key_one_kind x r k Hx).
    by rewrite (sorted_issues_perm _ _ Hr).
Qed.

(** C2 as stated fails on a collection with a phase numbered 0: the item of
    phase 0 with the smaller identifier is sorted before the cross-cutting
    item. *)
Lemma C2_counterexample :
  sorted_issues phase_zero_input = Ok phase_zero_sorted ∧
  ¬ (cross_cutting_first phase_zero_sorted ∧
     ascending_ids_within_phase phase_zero_sorted).
Proof.
  split; [reflexivity|]. intros [Hfirst _].
  assert (1 < 0)%nat; [|lia].
  eapply (Hfirst 1%nat 0%nat); [reflexivity|reflexivity|reflexivity|by eexists].
Qed.

(** C2, amended: when every numbered phase is greater than 0, the sort
    succeeds, returns the input items in an order where every cross-cutting
    item precedes every numbered one, and items of the same phase are in
    ascending order of identifier. *)
Theorem C2_sort_order_positive_phases issues :
  Forall (λ x, cross_cutting x ∨ ∃ n, phase x = PInt n ∧ 0 < n) issues →
  ∃ l, sorted_issues issues = Ok l ∧ l ≡ₚ issues ∧
       cross_cutting_first l ∧ ascending_ids_within_phase l.
Proof.
  intros Hpos.
  assert (Forall (λ y, cross_cutting y ∨ numbered y) issues) as Hall.
  { eapply Forall_impl; [exact Hpos|]. intros x [?|(n & ? & _)]; [by left|].
    right. by exists n. }
  destruct (sorted_issues_sorted issues Hall) as (l & Hl & Hs).
  pose proof (sorted_issues_perm _ _ Hl) as Hperm.
  exists l. split_and!; [done..| |].
  - intros i j a b Hi Hj Hcc [n Hn].
    assert (0 < n) as Hn0.
    { rewrite <-Hperm, Forall_forall in Hpos.
      destruct (Hpos b) as [Hb|(m & Hm & ?)]; [by eapply list_elem_of_lookup_2|..].
      - unfold cross_cutting in Hb. congruence.
      - congruence. }
    destruct (Nat.lt_trichotomy i j) as [?|[->|Hji]]; [done|..].
    + unfold cross_cutting in Hcc. congruence.
    + pose proof (StronglySorted_lookup _ _ _ _ _ _ Hs Hji Hj Hi) as Hle.
      unfold key_le, phase_rank in Hle. unfold cross_cutting in Hcc.
      rewrite Hn, Hcc in Hle. lia.
  - intros i j a b Hij Hi Hj Hph.
    pose proof (StronglySorted_lookup _ _ _ _ _ _ Hs Hij Hi Hj) as Hle.
    unfold key_le, phase_rank in Hle. rewrite Hph in Hle. lia.
Qed.

(** Taken over all numbered items together instead of phase by phase, the
    identifiers are not ascending: phase goes first in the key. *)
Lemma numbered_items_not_ascending_across_phases :
  ∃ l, sorted_issues positive_phase_input = Ok l ∧ ¬ ascending_ids_among_numbered l.
Proof.
  eexists. split; [reflexivity|]. intros Hasc.
  assert (3 ≤ 2); [|lia].
  apply (Hasc 1%nat 2%nat (work_item 3 (PInt 1) []) (work_item 2 (PInt 2) []));
    [lia|reflexivity|reflexivity|by eexists..].
Qed.

Lemma C2_witness :
  ∃ l, sorted_issues positive_phase_input = Ok l ∧ l ≡ₚ positive_phase_input ∧
       cross_cutting_first l ∧ ascending_ids_within_phase l.
Proof.
  apply (C2_sort_order_positive_phases positive_phase_input).
  unfold positive_phase_input, cross_cutting.
  repeat apply Forall_cons_2; [| | | |apply Forall_nil_2].
  - right. exists 2. split; [reflexivity|lia].
  - right. exists 1. split; [reflexivity|lia].
  - left. reflexivity.
  - right. exists 2. split; [reflexivity|lia].
Defined.

(** The only exception of the sort is the [TypeError] of a comparison. *)
Lemma sorted_issues_raises_type_error issues e :
  sorted_issues issues = Raised e → e = TypeError.
Proof.
  assert (∀ x l, insert_by_key x l = Raised e → e = TypeError) as Hins.
  { intros x l. induction l as [|y l IH]; cbn [insert_by_key]; [done|].
    destruct (key_lt (sort_key y) (sort_key x)) as [[]|e'] eqn:Hlt; cbn.
    - destruct (insert_by_key x l); cbn; [done|]. intros [= ->]. by apply IH.
    - done.
    - intros [= ->]. unfold key_lt in Hlt.
      destruct (py_eq _ _); [done|].
      destruct (sort_key y).1, (sort_key x).1; cbn in Hlt; congruence. }
  induction issues as [|x rest IH]; cbn [sorted_issues]; [done|].
  destruct (sorted_issues rest) as [r|e'] eqn:Hr; cbn.
  - apply Hins.
  - intros [= ->]. by apply IH.
Qed.

(** C9: when the collection holds an item whose phase is text other than
    the marker next to an item whose phase is a number or the marker, the
    sort raises [TypeError]; the exception escapes [create_github_issues]
    right after the repository lookup, before any item is handled. *)
Theorem C9_mixed_phases_raise_type_error issues x y :
  x ∈ issues → y ∈ issues →
  other_text_phase x → cross_cutting y ∨ numbered y →
  sorted_issues issues = Raised TypeError ∧
  ∀ R token repo_name dry_run tr,
    get_repo R token repo_name = None →
    create_github_issues R token repo_name issues dry_run tr =
      (Uncaught TypeError,
       tr ++ [GetRepo token repo_name] ++
             [Print ("Connected to repository: " +:+ repo_name)]).
Proof.
  intros Hx Hy (s & Hs & Hne) Hy'.
  assert (sorted_issues issues = Raised TypeError) as Hraise.
  { destruct (sorted_issues issues) as [l|e] eqn:Hl;
      [|by rewrite (sorted_issues_raises_type_error _ _ Hl)].
    destruct (sorted_issues_same_kind _ _ Hl) as [k Hk].
    rewrite Forall_forall in Hk.
    pose proof (Hk x Hx) as Hkx. pose proof (Hk y Hy) as Hky.
    unfold key_is_int in Hkx, Hky.
    rewrite (other_text_key x s Hs Hne) in Hkx.
    rewrite (ranked_key y Hy') in Hky. cbn in Hkx, Hky. congruence. }
  split; [done|].
  intros R token repo_name dry_run tr Hrepo.
  unfold create_github_issues, call_get_repo, mbind, run_bind.
  rewrite Hrepo, Hraise. cbn. by rewrite <-app_assoc.
Qed.

Lemma C9_witness : sorted_issues mixed_phase_input = Raised TypeError.
Proof.
  apply (C9_mixed_phases_raise_type_error mixed_phase_input
           (work_item 1 (PStr "alpha") []) (work_item 2 (PInt 1) [])).
  - apply list_elem_of_here.
  - apply list_elem_of_further, list_elem_of_here.
  - exists "alpha". split; [reflexivity|discriminate].
  - right. by exists 1.
Defined.

End OrderingClaims.

(** ** The submission loop *)

Ltac run_simpl :=
  unfold mbind, mret, run_bind, run_ret, print, sleep, emit, sys_exit,
    call_create_issue, call_get_repo, lift_result; cbn.

Section Loop.

Context (R : Remote).
Implicit Types x : WorkItem.
Implicit Types l : list WorkItem.
Implicit Types c : gmap Z Z.
Implicit Types tr evs : list event.

Lemma requests_app tr evs : requests (tr ++ evs) = requests tr ++ requests evs.
Proof.
  induction tr as [|e tr IH]; [done|].
  destruct e; cbn; by rewrite ?IH.
Qed.

Lemma requests_after_response r : requests (after_response r) = [].
Proof. destruct r as [n|e]; cbn; [done|]. by case_bool_decide. Qed.

(** One iteration of a dry run prints the report and leaves the mapping. *)
Lemma process_issue_dry c x tr :
  process_issue R true c x tr = (Return c, tr ++ dry_report x).
Proof.
  unfold process_issue. run_simpl. by rewrite <-!app_assoc.
Qed.

(** One iteration of a real run makes one request and acts on the answer. *)
Lemma process_issue_real c x tr :
  let r := create_issue R (length (requests tr))
             (issue_title x) (issue_body c x) (labels x) in
  process_issue R false c x tr =
    (Return (record_response c x r), tr ++ attempt x (issue_body c x) r).
Proof.
  intros r. unfold process_issue. run_simpl.
  rewrite requests_app. cbn [requests]. rewrite app_nil_r. fold r.
  destruct r as [n|e]; cbn.
  - by rewrite <-!app_assoc.
  - case_bool_decide; cbn; by rewrite <-!app_assoc.
Qed.

Lemma create_loop_cons dry c x l tr :
  create_loop R dry c (x :: l) tr =
    match process_issue R dry c x tr with
    | (Return c', tr') => create_loop R dry c' l tr'
    | (SysExit code, tr') => (SysExit code, tr')
    | (Uncaught e, tr') => (Uncaught e, tr')
    end.
Proof. reflexivity. Qed.

Lemma create_loop_dry c l tr :
  create_loop R true c l tr = (Return c, tr ++ concat (dry_report <$> l)).
Proof.
  revert tr. induction l as [|x l IH]; intros tr.
  - cbn. by rewrite app_nil_r.
  - rewrite create_loop_cons, process_issue_dry, IH.
    by rewrite fmap_cons, concat_cons, <-app_assoc.
Qed.

Lemma create_loop_app dry c l1 l2 tr :
  create_loop R dry c (l1 ++ l2) tr =
    match create_loop R dry c l1 tr with
    | (Return c', tr') => create_loop R dry c' l2 tr'
    | (SysExit code, tr') => (SysExit code, tr')
    | (Uncaught e, tr') => (Uncaught e, tr')
    end.
Proof.
  revert c tr. induction l1 as [|x l1 IH]; intros c tr; [done|].
  rewrite <-app_comm_cons, !create_loop_cons.
  destruct (process_issue R dry c x tr) as [[c'| |] tr']; [apply IH|done..].
Qed.

(** A real run of the loop always reaches its end, with one request for each
    item, and changes the mapping only at identifiers of the items. *)
Lemma create_loop_real_total c l tr :
  ∃ c' evs,
    create_loop R false c l tr = (Return c', tr ++ evs) ∧
    length (requests evs) = length l ∧
    ∀ k, Forall (λ x, id x ≠ k) l → c' !! k = c !! k.
Proof.
  revert c tr. induction l as [|x l IH]; intros c tr.
  - exists c, []. cbn. by rewrite app_nil_r.
  - rewrite create_loop_cons, process_issue_real.
    set (r := create_issue R _ _ _ _).
    destruct (IH (record_response c x r) (tr ++ attempt x (issue_body c x) r))
      as (c' & evs & Hrun & Hlen & Hframe).
    exists c', (attempt x (issue_body c x) r ++ evs).
    rewrite Hrun, <-app_assoc. split_and!; [done|..].
    + rewrite requests_app. unfold attempt. cbn.
      rewrite requests_after_response. cbn. by rewrite Hlen.
    + intros k [Hx Hl]%Forall_cons. rewrite (Hframe k Hl).
      destruct r; cbn; [|done]. by rewrite lookup_insert_ne.
Qed.

End Loop.

(** ** The related-issues section *)

Section Related.

Implicit Types c : gmap Z Z.
Implicit Types deps : list Z.

Lemma depends_on_lines_has_line c deps dep n prefix :
  dep ∈ deps → c !! dep = Some n →
  occurs_in (nl +:+ ("- Depends on #" +:+ str_of_int n) +:+ nl)
            (prefix +:+ nl +:+ depends_on_lines c deps).
Proof.
  intros Hin Hn. revert prefix.
  induction Hin as [dep deps|dep h deps _ IH]; intros prefix;
    cbn [depends_on_lines]; [|specialize (IH Hn)].
  - rewrite Hn. exists prefix, (depends_on_lines c deps).
    by rewrite !string_app_assoc.
  - destruct (c !! h) as [m|].
    + specialize (IH (prefix +:+ nl +:+ "- Depends on #" +:+ str_of_int m)).
      by rewrite !string_app_assoc in IH |- *.
    + apply IH.
Qed.

(** A dependency that is not a key of the mapping adds nothing. *)
Lemma depends_on_lines_unresolved c deps dep :
  c !! dep = None →
  depends_on_lines c deps = depends_on_lines c (filter (λ d, d ≠ dep) deps).
Proof.
  intros Hnone. induction deps as [|h deps IH]; [done|].
  cbn [depends_on_lines]. destruct (decide (h = dep)) as [->|Hne].
  - rewrite Hnone, filter_cons_False by naive_solver. exact IH.
  - rewrite filter_cons_True by done. cbn [depends_on_lines]. by rewrite IH.
Qed.

Lemma dependency_in_bullets deps dep :
  dep ∈ deps →
  occurs_in ("- Issue " +:+ str_of_int dep +:+ nl) (dependencies_section deps).
Proof.
  intros Hin.
  assert (occurs_in ("- Issue " +:+ str_of_int dep +:+ nl) (dependency_bullets deps)).
  { induction Hin as [dep deps|dep h deps _ IH]; cbn [dependency_bullets].
    - eexists "", _. rewrite !string_app_assoc. reflexivity.
    - by do 3 apply occurs_in_skip. }
  destruct deps; [by apply elem_of_nil in Hin|done].
Qed.

End Related.

(** ** The submission driver *)

Section DriverClaims.

Context (R : Remote).
Implicit Types x d : WorkItem.
Implicit Types c : gmap Z Z.
Implicit Types tr evs : list event.

(** C4: when the request for an item fails, the error is printed, a failure
    with status 403 is followed by a pause of 60, the mapping is left as it
    was, and the loop goes on with the next item: every remaining item gets
    its one request, none goes to the failed item again, and the mapping
    never gets an entry for it from this run. *)
Theorem C4_failed_item_abandoned c tr x rest e :
  create_issue R (length (requests tr))
    (issue_title x) (issue_body c x) (labels x) = Failed e →
  let cooldown :=
    if bool_decide (status e = 403)
    then [Print "  Rate limit may be exceeded. Waiting 60 seconds..."; Sleep 60]
    else [] in
  let tr_x :=
    tr ++ [Print ("Creating: [" +:+ str_of_int (id x) +:+ "] " +:+ issue_title x);
           CreateIssue (issue_title x) (issue_body c x) (labels x);
           Print ("  ✗ Error creating issue: " +:+ text e)] ++ cooldown in
  process_issue R false c x tr = (Return c, tr_x) ∧
  create_loop R false c (x :: rest) tr = create_loop R false c rest tr_x ∧
  ∃ c' evs,
    create_loop R false c rest tr_x = (Return c', tr_x ++ evs) ∧
    length (requests evs) = length rest ∧
    (Forall (λ y, id y ≠ id x) rest → c' !! id x = c !! id x).
Proof.
  intros Hfail cooldown tr_x.
  assert (process_issue R false c x tr = (Return c, tr_x)) as Hstep.
  { rewrite process_issue_real, Hfail. reflexivity. }
  split_and!; [done|by rewrite create_loop_cons, Hstep|].
  destruct (create_loop_real_total R c rest tr_x) as (c' & evs & Hrun & Hlen & Hframe).
  exists c', evs. split_and!; [done..|]. apply Hframe.
Qed.

End DriverClaims.

Lemma C4_witness :
  process_issue rate_limited_remote false ∅ first_item [] =
    (Return ∅,
     [Print "Creating: [1] Title";
      CreateIssue "Title" (issue_body ∅ first_item) ["enhancement"];
      Print "  ✗ Error creating issue: rate limit exceeded";
      Print "  Rate limit may be exceeded. Waiting 60 seconds...";
      Sleep 60]).
Proof.
  pose proof (C4_failed_item_abandoned rate_limited_remote ∅ [] first_item []
                (mkGithubException 403 "rate limit exceeded") eq_refl) as [Hstep _].
  exact Hstep.
Defined.

Section DependencyClaims.

Context (R : Remote).
Implicit Types x d : WorkItem.
Implicit Types c : gmap Z Z.
Implicit Types tr evs : list event.

Lemma related_issues_has_line c deps dep n prefix :
  dep ∈ deps → c !! dep = Some n →
  has_line ("- Depends on #" +:+ str_of_int n) (prefix +:+ related_issues c deps).
Proof.
  intros Hin Hn. unfold has_line, related_issues.
  destruct deps as [|h deps]; [by apply elem_of_nil in Hin|].
  pose proof (depends_on_lines_has_line c (h :: deps) dep n
                (prefix +:+ nl +:+ "## Related Issues") Hin Hn) as Hline.
  by rewrite !string_app_assoc in Hline |- *.
Qed.

(** C5: in a real run, let the item [d] be created with the number [n], and
    let [x], handled later, list the identifier of [d] among its
    dependencies, no item in between having that identifier.  Then the run
    reaches its end, and the body of the request made for [x] has the line
    [- Depends on #n]. *)
Theorem C5_created_dependency_is_linked c0 tr0 before d between x after c1 tr1 n :
  create_loop R false c0 before tr0 = (Return c1, tr1) →
  create_issue R (length (requests tr1))
    (issue_title d) (issue_body c1 d) (labels d) = Created n →
  Forall (λ y, id y ≠ id d) between →
  id d ∈ dependencies x →
  ∃ c' tr body,
    create_loop R false c0 (before ++ d :: between ++ x :: after) tr0 = (Return c', tr) ∧
    requests tr !! (length (requests tr1) + 1 + length between)%nat =
      Some (issue_title x, body, labels x) ∧
    has_line ("- Depends on #" +:+ str_of_int n) body.
Proof.
  intros Hbefore Hd Hbetween Hdep.
  rewrite create_loop_app, Hbefore, create_loop_cons, process_issue_real, Hd.
  cbn [record_response].
  set (trd := tr1 ++ attempt d (issue_body c1 d) (Created n)).
  rewrite create_loop_app.
  destruct (create_loop_real_total R (<[id d := n]> c1) between trd)
    as (c2 & evs2 & -> & Hlen2 & Hframe2).
  rewrite create_loop_cons, process_issue_real.
  set (r := create_issue R _ _ _ _).
  set (trx := (trd ++ evs2) ++ attempt x (issue_body c2 x) r).
  destruct (create_loop_real_total R (record_response c2 x r) after trx)
    as (c3 & evs3 & -> & _ & _).
  exists c3, (trx ++ evs3), (issue_body c2 x). split_and!; [done|..].
  - unfold trx, trd, attempt. rewrite !requests_app. cbn [requests app].
    rewrite <-!app_assoc. cbn [app].
    rewrite !requests_after_response. cbn [app].
    rewrite lookup_app_r by lia.
    replace (_ - _)%nat with (S (length (requests evs2))) by lia.
    cbn [lookup list_lookup]. by apply list_lookup_middle.
  - unfold issue_body. apply (related_issues_has_line c2 _ (id d)); [done|].
    rewrite (Hframe2 _ Hbetween). apply lookup_insert_eq.
Qed.

(** The mapping of a run that started with none has no entry for an
    identifier that no item handled so far has. *)
Lemma unlisted_not_recorded before dep tr0 c1 tr1 :
  create_loop R false ∅ before tr0 = (Return c1, tr1) →
  Forall (λ y, id y ≠ dep) before →
  c1 !! dep = None.
Proof.
  intros Hrun Hids.
  destruct (create_loop_real_total R ∅ before tr0) as (c & evs & Hrun' & _ & Hframe).
  rewrite Hrun in Hrun'. injection Hrun' as -> _.
  by rewrite (Hframe dep Hids), lookup_empty.
Qed.

(** C6: let [x] list a dependency [dep] that is not a key of the mapping
    when [x] is handled.  The real run still reaches its end; the body of the
    request made for [x] has the Related Issues section that [x] would have
    without [dep] in its list, so no line for [dep]; and the Dependencies
    section still has the bullet [- Issue dep]. *)
Theorem C6_unresolved_dependency_is_plain_text c0 tr0 before x after dep c1 tr1 :
  create_loop R false c0 before tr0 = (Return c1, tr1) →
  c1 !! dep = None →
  dep ∈ dependencies x →
  ∃ c' tr,
    create_loop R false c0 (before ++ x :: after) tr0 = (Return c', tr) ∧
    requests tr !! length (requests tr1) =
      Some (issue_title x, issue_body c1 x, labels x) ∧
    issue_body c1 x =
      format_issue_body x +:+ (nl +:+ "## Related Issues" +:+ nl) +:+
      depends_on_lines c1 (filter (λ k, k ≠ dep) (dependencies x)) ∧
    occurs_in ("- Issue " +:+ str_of_int dep +:+ nl)
              (dependencies_section (dependencies x)) ∧
    occurs_in ("- Issue " +:+ str_of_int dep +:+ nl) (issue_body c1 x).
Proof.
  intros Hbefore Hnone Hdep.
  rewrite create_loop_app, Hbefore, create_loop_cons, process_issue_real.
  set (r := create_issue R _ _ _ _).
  set (trx := tr1 ++ attempt x (issue_body c1 x) r).
  destruct (create_loop_real_total R (record_response c1 x r) after trx)
    as (c2 & evs2 & -> & _ & _).
  exists c2, (trx ++ evs2). split_and!; [done|..].
  - unfold trx, attempt. rewrite !requests_app. cbn [requests app].
    rewrite <-app_assoc. by apply list_lookup_middle.
  - unfold issue_body, related_issues.
    destruct (dependencies x) as [|h deps] eqn:Hdeps; [by apply elem_of_nil in Hdep|].
    by rewrite <-(depends_on_lines_unresolved c1 (h :: deps) dep Hnone).
  - by apply dependency_in_bullets.
  - unfold issue_body, format_issue_body.
    apply occurs_in_left, occurs_in_skip, occurs_in_left.
    by apply dependency_in_bullets.
Qed.

End DependencyClaims.

Lemma C5_witness :
  ∃ c' tr body,
    create_loop numbering_remote false ∅
      ([] ++ first_item :: [] ++ second_item :: []) [] = (Return c', tr) ∧
    requests tr !! 1%nat = Some (issue_title second_item, body, labels second_item) ∧
    has_line ("- Depends on #" +:+ str_of_int 100) body.
Proof.
  apply (C5_created_dependency_is_linked numbering_remote
           ∅ [] [] first_item [] second_item [] ∅ [] 100).
  - reflexivity.
  - reflexivity.
  - apply Forall_nil_2.
  - apply list_elem_of_here.
Defined.

Lemma C6_witness :
  ∃ c' tr,
    create_loop numbering_remote false ∅ ([] ++ second_item :: []) [] = (Return c', tr) ∧
    requests tr !! 0%nat =
      Some (issue_title second_item, issue_body ∅ second_item, labels second_item) ∧
    issue_body ∅ second_item =
      format_issue_body second_item +:+ (nl +:+ "## Related Issues" +:+ nl) +:+
      depends_on_lines ∅ (filter (λ k, k ≠ 1) (dependencies second_item)) ∧
    occurs_in ("- Issue " +:+ str_of_int 1 +:+ nl)
              (dependencies_section (dependencies second_item)) ∧
    occurs_in ("- Issue " +:+ str_of_int 1 +:+ nl) (issue_body ∅ second_item).
Proof.
  apply (C6_unresolved_dependency_is_plain_text numbering_remote
           ∅ [] [] second_item [] 1 ∅ []).
  - reflexivity.
  - apply lookup_empty.
  - apply list_elem_of_here.
Defined.

(** The example of the specification, through the whole script: the records
    with identifiers 1 and 2 are handled in that order, the service returns
    100 and 101, and the body submitted for 2 has the line for 100. *)
Lemma spec_example_depends_on_100 :
  exit_code example_env example_command = 0 ∧
  ∃ body,
    requests (events_of example_env example_command) !! 1%nat =
      Some ("Phase 1: Title", body, ["enhancement"]) ∧
    has_line "- Depends on #100" body.
Proof.
  split; [reflexivity|].
  exists (issue_body {[1 := 100]} second_item). split; [reflexivity|].
  exists (format_issue_body second_item +:+ nl +:+ "## Related Issues"), "".
  reflexivity.
Qed.

(** ** The whole script *)

Section Script.

Implicit Types env : Env.
Implicit Types cmd : CommandLine.
Implicit Types tr : list event.

Lemma effects_app tr1 tr2 : effects (tr1 ++ tr2) = effects tr1 ++ effects tr2.
Proof. apply List.filter_app. Qed.

Lemma effects_dry_reports (l : list WorkItem) : effects (concat (dry_report <$> l)) = [].
Proof. induction l as [|x l IH]; [done|]. cbn. exact IH. Qed.

(** Every run of the loop reaches its end. *)
Lemma create_loop_returns R dry (c : gmap Z Z) (l : list WorkItem) tr :
  ∃ c' tr', create_loop R dry c l tr = (Return c', tr').
Proof.
  destruct dry.
  - rewrite create_loop_dry. eauto.
  - destruct (create_loop_real_total R c l tr) as (c' & evs & -> & _). eauto.
Qed.

(** [create_github_issues] in a dry run, case by case. *)
Lemma create_github_issues_dry R tok repo_name issues tr :
  create_github_issues R tok repo_name issues true tr =
    match get_repo R tok repo_name with
    | Some e =>
        (SysExit 1,
         tr ++ [GetRepo tok repo_name;
                Print ("Error accessing repository: " +:+ text e)])
    | None =>
        match sorted_issues issues with
        | Raised e =>
            (Uncaught e,
             tr ++ [GetRepo tok repo_name;
                    Print ("Connected to repository: " +:+ repo_name)])
        | Ok l =>
            (Return (),
             tr ++ [GetRepo tok repo_name;
                    Print ("Connected to repository: " +:+ repo_name);
                    Print (nl +:+ "Will create " +:+
                           str_of_int (Z.of_nat (length l)) +:+ " issues");
                    Print ("DRY RUN MODE - No issues will be created" +:+ nl)] ++
                   concat (dry_report <$> l) ++
                   [Print (nl +:+ "Dry run complete" +:+ "!")])
        end
    end.
Proof.
  unfold create_github_issues. run_simpl.
  destruct (get_repo R tok repo_name) as [e|]; cbn.
  - by rewrite <-!app_assoc.
  - destruct (sorted_issues issues) as [l|e]; cbn.
    + rewrite create_loop_dry. cbn. by rewrite <-!app_assoc.
    + by rewrite <-!app_assoc.
Qed.

(** How [create_github_issues] ends, in either mode. *)
Lemma create_github_issues_outcome R tok repo_name issues dry tr :
  (create_github_issues R tok repo_name issues dry tr).1 =
    match get_repo R tok repo_name with
    | Some _ => SysExit 1
    | None =>
        match sorted_issues issues with
        | Raised e => Uncaught e
        | Ok _ => Return ()
        end
    end.
Proof.
  unfold create_github_issues. run_simpl.
  destruct (get_repo R tok repo_name) as [e|]; cbn; [done|].
  destruct (sorted_issues issues) as [l|e]; cbn; [|done].
  destruct dry; cbn;
    match goal with |- context [create_loop R ?d ∅ l ?t] =>
      destruct (create_loop_returns R d ∅ l t) as (c' & tr' & ->) end;
    reflexivity.
Qed.

End Script.

Section ScriptClaims.

Implicit Types env : Env.
Implicit Types cmd : CommandLine.

(** [main] once the token check has passed and the file has loaded. *)
Lemma main_loaded env cmd issues tr :
  let args := parse_args (environ_token env) cmd in
  (negb (dry_run args) && token_missing (token args))%bool = false →
  load_issues env (file args) = Loaded issues →
  main env cmd tr =
    create_github_issues (remote env) (token args) (repo args) issues (dry_run args)
      (tr ++ [Print ("Loaded " +:+ str_of_int (Z.of_nat (length issues)) +:+
                     " issues from " +:+ file args)]).
Proof.
  intros args Htok Hload. unfold main. fold args.
  rewrite Htok, Hload. reflexivity.
Qed.

(** C3 as stated fails: with a token, a file that loads and a repository
    that is reached, none of the four conditions holds, yet the [TypeError]
    of the sort ends the process with status 1. *)
Lemma C3_counterexample :
  fatal_condition mixed_env example_command = false ∧
  exit_code mixed_env example_command = 1.
Proof. split; reflexivity. Qed.

(** C3, amended: the exit status is 1 when one of the four conditions
    holds, and also when the client library is missing or an exception that
    the script does not catch ends the run, be it raised by [load_issues] or
    by the sort; it is 2 when [argparse] rejects the arguments; and it is 0
    after the help text and whenever the run reaches the end of [main], as
    it does in every other run of the embedding (records with the keys and
    types of the data model, a client that raises nothing but
    [GithubException]), whatever the service answers to the creation
    requests. *)
Theorem C3_exit_status env (argv : Argv) :
  exit_code env argv =
    if negb (pygithub_installed env) then 1
    else
      match argv with
      | HelpRequested _ => 0
      | Rejected _ => 2
      | Options cmd =>
          if (fatal_condition env cmd || load_raises env cmd
              || sort_raises env cmd)%bool
          then 1 else 0
      end.
Proof.
  unfold exit_code, script.
  destruct (pygithub_installed env); [|reflexivity]. cbn [negb].
  destruct argv as [cmd|help|usage]; [|reflexivity..].
  unfold fatal_condition, load_raises, sort_raises.
  set (args := parse_args (environ_token env) cmd).
  destruct (negb (dry_run args) && token_missing (token args))%bool eqn:Htok.
  { unfold main. fold args. rewrite Htok. reflexivity. }
  destruct (load_issues env (file args)) as [|msg|e|issues] eqn:Hload.
  - unfold main. fold args. rewrite Htok, Hload. reflexivity.
  - unfold main. fold args. rewrite Htok, Hload. reflexivity.
  - unfold main. fold args. rewrite Htok, Hload. cbn [orb].
    by destruct (bool_decide _).
  - rewrite (main_loaded env cmd issues [] Htok Hload).
    rewrite create_github_issues_outcome. fold args. cbn [orb].
    destruct (get_repo (remote env) (token args) (repo args)) as [e|]; [done|].
    rewrite bool_decide_eq_false_2 by naive_solver. cbn [orb].
    by destruct (sorted_issues issues).
Qed.

(** The other endings of C3 on examples: a file without the key [issues]
    ends the run with status 1 and no remote call; rejected arguments end it
    with status 2 and a request for help with status 0, before anything is
    loaded. *)
Lemma exit_status_of_the_other_endings :
  exit_code keyless_file_env example_command = 1 ∧
  effects (events_of keyless_file_env example_command) = [] ∧
  exit_code example_env (Rejected "usage: create-issues.py [-h] ...") = 2 ∧
  exit_code example_env (HelpRequested "usage: create-issues.py [-h] ...") = 0 ∧
  events_of example_env (Rejected "usage: create-issues.py [-h] ...") =
    [Print "usage: create-issues.py [-h] ..."].
Proof. split_and!; reflexivity. Qed.

Lemma requests_dry_reports (l : list WorkItem) :
  requests (concat (dry_report <$> l)) = [].
Proof. induction l as [|x l IH]; [done|]. cbn. exact IH. Qed.

(** C1 as stated fails: a dry run looks the repository up. *)
Lemma C1_counterexample :
  opt_dry_run dry_command = true ∧
  remote_calls (events_of example_env dry_command) =
    [GetRepo None "jarz/SecureSpec.AspNetCore"] ∧
  remote_calls (events_of example_env dry_command) ≠ [].
Proof. split_and!; [reflexivity..|discriminate]. Qed.

(** C1, amended: in a run with the dry-run flag no creation request is made;
    the only event other than printing is the one repository lookup, made
    once the file has loaded; and when the lookup and the sort succeed, the
    run prints the report of every record of the file, in sorted order. *)
Theorem C1_dry_run_only_looks_up env cmd :
  opt_dry_run cmd = true →
  let args := parse_args (environ_token env) cmd in
  requests (events_of env cmd) = [] ∧
  effects (events_of env cmd) =
    match pygithub_installed env, load_issues env (file args) with
    | true, Loaded _ => [GetRepo (token args) (repo args)]
    | _, _ => []
    end ∧
  ∀ issues l,
    pygithub_installed env = true →
    load_issues env (file args) = Loaded issues →
    get_repo (remote env) (token args) (repo args) = None →
    sorted_issues issues = Ok l →
    l ≡ₚ issues ∧
    events_of env cmd =
      [Print ("Loaded " +:+ str_of_int (Z.of_nat (length issues)) +:+
              " issues from " +:+ file args);
       GetRepo (token args) (repo args);
       Print ("Connected to repository: " +:+ repo args);
       Print (nl +:+ "Will create " +:+
              str_of_int (Z.of_nat (length l)) +:+ " issues");
       Print ("DRY RUN MODE - No issues will be created" +:+ nl)] ++
      concat (dry_report <$> l) ++
      [Print (nl +:+ "Dry run complete" +:+ "!")].
Proof.
  intros Hdry args.
  assert (dry_run args = true) as Hdry' by done.
  assert ((negb (dry_run args) && token_missing (token args))%bool = false) as Htok
    by (by rewrite Hdry').
  assert (∀ issues, load_issues env (file args) = Loaded issues →
            main env cmd [] =
              create_github_issues (remote env) (token args) (repo args) issues true
                [Print ("Loaded " +:+ str_of_int (Z.of_nat (length issues)) +:+
                        " issues from " +:+ file args)]) as Hmain.
  { intros issues Hload. rewrite (main_loaded env cmd issues [] Htok Hload).
    fold args. by rewrite Hdry'. }
  split_and!.
  - unfold events_of, script.
    destruct (pygithub_installed env); [|done].
    destruct (load_issues env (file args)) as [|msg|e|issues] eqn:Hload.
    + unfold main. fold args. by rewrite Htok, Hload.
    + unfold main. fold args. by rewrite Htok, Hload.
    + unfold main. fold args. by rewrite Htok, Hload.
    + rewrite (Hmain issues eq_refl), create_github_issues_dry.
      destruct (get_repo (remote env) (token args) (repo args)) as [e|]; [done|].
      destruct (sorted_issues issues) as [l|e]; [|done].
      cbn [snd app requests]. by rewrite requests_app, requests_dry_reports.
  - unfold events_of, script.
    destruct (pygithub_installed env); [|done].
    destruct (load_issues env (file args)) as [|msg|e|issues] eqn:Hload.
    + unfold main. fold args. by rewrite Htok, Hload.
    + unfold main. fold args. by rewrite Htok, Hload.
    + unfold main. fold args. by rewrite Htok, Hload.
    + rewrite (Hmain issues eq_refl), create_github_issues_dry.
      destruct (get_repo (remote env) (token args) (repo args)) as [e|]; [done|].
      destruct (sorted_issues issues) as [l|e]; [|done].
      cbn [snd]. rewrite !effects_app, effects_dry_reports. reflexivity.
  - intros issues l Hinst Hload Hrepo Hsort.
    split; [by apply sorted_issues_perm|].
    unfold events_of, script.
    by rewrite Hinst, (Hmain issues Hload), create_github_issues_dry, Hrepo, Hsort.
Qed.

Lemma C1_witness :
  effects (events_of example_env dry_command) =
    [GetRepo None "jarz/SecureSpec.AspNetCore"].
Proof.
  pose proof (C1_dry_run_only_looks_up example_env dry_command eq_refl)
    as (_ & Heffects & _).
  exact Heffects.
Defined.

(** A run in which every creation request fails still ends with status 0. *)
Lemma exit_status_zero_when_every_request_fails :
  exit_code
    (mkEnv true None (λ _, Loaded [second_item; first_item]) rate_limited_remote)
    example_command = 0.
Proof. reflexivity. Qed.

End ScriptClaims.

(** * Further properties *)

(** ** The sort, beyond the claims *)

Section OrderingFurther.

Implicit Types x y a b : WorkItem.
Implicit Types l issues : list WorkItem.

Lemma py_eq_refl (v : pyval) : py_eq v v = true.
Proof. destruct v; cbn; by apply bool_decide_eq_true. Qed.

(** A key is not smaller than itself, so an item is never moved past an item
    with the same key. *)
Lemma key_lt_irrefl k : key_lt k k = Ok false.
Proof. unfold key_lt. by rewrite py_eq_refl, Z.ltb_irrefl. Qed.

Lemma insert_by_key_stable x l l' k :
  insert_by_key x l = Ok l' →
  items_with_key k l' = items_with_key k (x :: l).
Proof.
  unfold items_with_key.
  revert l'. induction l as [|y l IH]; intros l'; cbn [insert_by_key].
  - by intros [= <-].
  - destruct (key_lt (sort_key y) (sort_key x)) as [[]|] eqn:Hlt; cbn;
      [|by intros [= <-]|done].
    destruct (insert_by_key x l) as [r|]; cbn; [|done].
    intros [= <-]. rewrite filter_cons, (IH r eq_refl), !filter_cons.
    destruct (decide (sort_key y = k)) as [Hy|Hy],
             (decide (sort_key x = k)) as [Hx|Hx]; try done.
    rewrite Hy, Hx, key_lt_irrefl in Hlt. done.
Qed.

Lemma key_is_int_ranked x : key_is_int x = true ↔ cross_cutting x ∨ numbered x.
Proof.
  unfold key_is_int, sort_key, cross_cutting, numbered.
  destruct (phase x) as [n|s]; cbn.
  - split; [eauto|done].
  - case_bool_decide as Hs; cbn; split; try done.
    + left. congruence.
    + intros [[=]|[n [=]]]. done.
Qed.

Lemma key_is_int_other_text x : key_is_int x = false ↔ other_text_phase x.
Proof.
  unfold key_is_int, sort_key, other_text_phase.
  destruct (phase x) as [n|s]; cbn.
  - split; [done|]. by intros (s & [=] & _).
  - case_bool_decide as Hs; cbn; split; try done.
    + intros (s' & [= <-] & Hne). done.
    + intros _. exists s. split; [done|]. congruence.
Qed.

(** X1: a sort that succeeds returns the records of the input, each as often
    as the input has it, so as many as were loaded. *)
Theorem X1_sort_keeps_the_items issues l :
  sorted_issues issues = Ok l →
  l ≡ₚ issues ∧ length l = length issues.
Proof.
  intros Hl%sorted_issues_perm. split; [done|]. by rewrite Hl.
Qed.

Lemma X1_witness :
  [work_item 9 (PStr "cross-cutting") []; work_item 3 (PInt 1) [];
   work_item 2 (PInt 2) []; work_item 5 (PInt 2) []] ≡ₚ positive_phase_input ∧
  length [work_item 9 (PStr "cross-cutting") []; work_item 3 (PInt 1) [];
          work_item 2 (PInt 2) []; work_item 5 (PInt 2) []] =
    length positive_phase_input.
Proof.
  apply (X1_sort_keeps_the_items positive_phase_input). reflexivity.
Defined.

(** X2: the sort is stable: records with the same key, that is the same
    phase (or both phase 0 and cross-cutting) and the same identifier, leave
    the sort in the order they had in the file. *)
Theorem X2_sort_is_stable issues l k :
  sorted_issues issues = Ok l →
  items_with_key k l = items_with_key k issues.
Proof.
  revert l. induction issues as [|x rest IH]; intros l; cbn [sorted_issues].
  - by intros [= <-].
  - destruct (sorted_issues rest) as [r|]; cbn; [|done].
    intros Hins%(insert_by_key_stable _ _ _ k). rewrite Hins.
    unfold items_with_key in *. by rewrite !filter_cons, (IH r eq_refl).
Qed.

Lemma X2_witness :
  items_with_key (PInt 2, 4) [work_item 3 (PInt 1) []; twin_first; twin_second] =
    [twin_first; twin_second].
Proof.
  rewrite (X2_sort_is_stable twins_input
             [work_item 3 (PInt 1) []; twin_first; twin_second] (PInt 2, 4));
    reflexivity.
Defined.

(** X3: when every phase is a number or the marker, the sort succeeds and
    orders the records by phase number, the marker counting as 0, and by
    identifier within one phase number; a record of phase 0 and a
    cross-cutting one are ordered by identifier alone. *)
Theorem X3_sort_orders_by_phase_then_id issues :
  Forall (λ x, cross_cutting x ∨ numbered x) issues →
  ∃ l, sorted_issues issues = Ok l ∧
    ∀ i j a b, (i < j)%nat → l !! i = Some a → l !! j = Some b →
      phase_rank a ≤ phase_rank b ∧
      (phase_rank a = phase_rank b → id a ≤ id b).
Proof.
  intros Hall. destruct (sorted_issues_sorted issues Hall) as (l & Hl & Hs).
  exists l. split; [done|]. intros i j a b Hij Hi Hj.
  pose proof (StronglySorted_lookup _ _ _ _ _ _ Hs Hij Hi Hj) as Hle.
  unfold key_le in Hle. lia.
Qed.

Lemma X3_witness :
  ∃ l, sorted_issues phase_zero_input = Ok l ∧
    ∀ i j a b, (i < j)%nat → l !! i = Some a → l !! j = Some b →
      phase_rank a ≤ phase_rank b ∧
      (phase_rank a = phase_rank b → id a ≤ id b).
Proof.
  apply (X3_sort_orders_by_phase_then_id phase_zero_input).
  unfold phase_zero_input.
  repeat apply Forall_cons_2; [| |apply Forall_nil_2].
  - left. reflexivity.
  - right. exists 0. reflexivity.
Defined.

(** X4: the sort succeeds exactly when the phases are all numbers or the
    marker, or all text other than the marker; on every other collection it
    raises. *)
Theorem X4_sort_succeeds_iff_one_kind issues :
  (∃ l, sorted_issues issues = Ok l) ↔
  Forall (λ x, cross_cutting x ∨ numbered x) issues ∨
  Forall other_text_phase issues.
Proof.
  rewrite sorted_issues_ok_iff. split.
  - intros [[] Hk]; [left|right]; (eapply Forall_impl; [exact Hk|]); intros x Hx.
    + by apply key_is_int_ranked.
    + by apply key_is_int_other_text.
  - intros [Hall|Hall]; [exists true|exists false];
      (eapply Forall_impl; [exact Hall|]); intros x Hx.
    + by apply key_is_int_ranked.
    + by apply key_is_int_other_text.
Qed.

End OrderingFurther.

(** ** A real run of the loop, beyond the claims *)

Section LoopFurther.

Context (R : Remote).
Implicit Types x : WorkItem.
Implicit Types l : list WorkItem.
Implicit Types c : gmap Z Z.
Implicit Types tr evs : list event.

Lemma sleeps_app tr evs : sleeps (tr ++ evs) = sleeps tr ++ sleeps evs.
Proof.
  induction tr as [|e tr IH]; [done|].
  destruct e; cbn; by rewrite ?IH.
Qed.

Lemma sleeps_after_response r :
  sleeps (after_response r) = [] ∨ sleeps (after_response r) = [1] ∨
  sleeps (after_response r) = [60].
Proof.
  destruct r as [n|e]; cbn; [by right; left|].
  case_bool_decide; cbn; [by right; right|by left].
Qed.

Lemma requests_attempt x body r :
  requests (attempt x body r) = [(issue_title x, body, labels x)].
Proof. unfold attempt. cbn. by rewrite requests_after_response. Qed.

Lemma sleeps_attempt x body r :
  sleeps (attempt x body r) = sleeps (after_response r).
Proof. reflexivity. Qed.

Lemma sleeps_after_response_pause r : sleeps (after_response r) = pause_after r.
Proof. destruct r as [n|e]; cbn; [done|]. by case_bool_decide. Qed.

(** What a real run of the loop does, item by item: it reaches its end; the
    request at position [i] is the one for the item at position [i]; an entry
    of the mapping that was not there before is a number the service
    returned for an item with that identifier; there is at most one pause
    for each item, of 1 or of 60; and the pauses are those that follow the
    answers to the requests. *)
Lemma create_loop_real_spec c l tr :
  ∃ c' evs,
    create_loop R false c l tr = (Return c', tr ++ evs) ∧
    length (requests evs) = length l ∧
    (∀ i x, l !! i = Some x →
       ∃ body, requests evs !! i = Some (issue_title x, body, labels x) ∧
               starts_with (format_issue_body x) body) ∧
    (∀ k n, c' !! k = Some n →
       c !! k = Some n ∨
       ∃ i x t b ls,
         l !! i = Some x ∧ id x = k ∧
         requests evs !! i = Some (t, b, ls) ∧
         create_issue R (length (requests tr) + i) t b ls = Created n) ∧
    (length (sleeps evs) ≤ length l)%nat ∧
    Forall (λ s, s = 1 ∨ s = 60) (sleeps evs) ∧
    sleeps evs = pauses_for (answers R (length (requests tr)) (requests evs)).
Proof.
  revert c tr. induction l as [|x l IH]; intros c tr.
  - exists c, []. cbn. rewrite app_nil_r.
    split_and!; [done|done| |by left|done|done|done].
    intros i x Hi. by rewrite lookup_nil in Hi.
  - rewrite create_loop_cons, process_issue_real.
    set (r := create_issue R _ _ _ _).
    set (body := issue_body c x).
    destruct (IH (record_response c x r) (tr ++ attempt x body r))
      as (c' & evs & Hrun & Hlen & Hreq & Hmap & Hnum & Hsec & Hpause).
    exists c', (attempt x body r ++ evs).
    rewrite Hrun, <-app_assoc, requests_app, requests_attempt, sleeps_app,
      sleeps_attempt.
    cbn [app length]. split_and!; [done|by rewrite Hlen|..].
    + intros [|i] y Hy; cbn in Hy |- *.
      * injection Hy as <-. exists body. split; [done|]. by eexists.
      * by apply Hreq.
    + intros k n Hk. destruct (Hmap k n Hk) as [Hc|(i & y & t & b & ls & Hy & Hid & Hi & Hn)].
      * destruct r as [m|e] eqn:Hr; cbn in Hc; [|by left].
        destruct (decide (id x = k)) as [<-|Hne].
        -- rewrite lookup_insert_eq in Hc. injection Hc as ->.
           right. exists 0%nat, x, (issue_title x), body, (labels x).
           split_and!; [done..|]. by rewrite Nat.add_0_r.
        -- rewrite lookup_insert_ne in Hc by done. by left.
      * right. exists (S i), y, t, b, ls. split_and!; [done..|].
        rewrite requests_app, requests_attempt, length_app in Hn. cbn in Hn.
        by replace (length (requests tr) + S i)%nat
          with (length (requests tr) + 1 + i)%nat by lia.
    + rewrite length_app.
      destruct (sleeps_after_response r) as [->|[->| ->]]; cbn; lia.
    + apply Forall_app. split; [|done].
      destruct (sleeps_after_response r) as [->|[->| ->]];
        [constructor|constructor; [by left|constructor]
        |constructor; [by right|constructor]].
    + rewrite Hpause, sleeps_after_response_pause.
      rewrite requests_app, requests_attempt, length_app, Nat.add_1_r.
      reflexivity.
Qed.

End LoopFurther.

(** ** The driver and the script, beyond the claims *)

Section ScriptFurther.

Implicit Types env : Env.
Implicit Types cmd : CommandLine.
Implicit Types tr evs : list event.
Implicit Types l issues : list WorkItem.

(** [create_github_issues] case by case, in either mode. *)
Lemma create_github_issues_cases R tok repo_name issues dry tr :
  create_github_issues R tok repo_name issues dry tr =
    match get_repo R tok repo_name with
    | Some e =>
        (SysExit 1,
         tr ++ [GetRepo tok repo_name;
                Print ("Error accessing repository: " +:+ text e)])
    | None =>
        match sorted_issues issues with
        | Raised e =>
            (Uncaught e,
             tr ++ [GetRepo tok repo_name;
                    Print ("Connected to repository: " +:+ repo_name)])
        | Ok l =>
            match create_loop R dry ∅ l
                    (tr ++ [GetRepo tok repo_name;
                            Print ("Connected to repository: " +:+ repo_name);
                            Print (nl +:+ "Will create " +:+
                                   str_of_int (Z.of_nat (length l)) +:+ " issues");
                            Print (if dry
                                   then "DRY RUN MODE - No issues will be created" +:+ nl
                                   else "")]) with
            | (Return c', tr') =>
                (Return (),
                 tr' ++
                 Print (nl +:+ (if dry then "Dry run complete"
                                else "Issue creation complete") +:+ "!") ::
                 (if dry then []
                  else [Print ("Created " +:+ str_of_int (Z.of_nat (size c')) +:+
                               " issues");
                        Print ("View at: https://github.com/" +:+ repo_name +:+
                               "/issues")]))
            | (SysExit code, tr') => (SysExit code, tr')
            | (Uncaught e, tr') => (Uncaught e, tr')
            end
        end
    end.
Proof.
  unfold create_github_issues. run_simpl.
  destruct (get_repo R tok repo_name) as [e|]; cbn.
  - by rewrite <-!app_assoc.
  - destruct (sorted_issues issues) as [l|e]; cbn; [|by rewrite <-!app_assoc].
    destruct dry; cbn; rewrite <-!app_assoc; cbn [app];
      match goal with |- context [create_loop R ?d ∅ l ?t] =>
        destruct (create_loop R d ∅ l t) as [[c'| |] tr'] end;
      cbn; by rewrite <-?app_assoc.
Qed.

Lemma created_count_cons r rs :
  created_count (r :: rs) = ((if is_created r then 1 else 0) + created_count rs)%nat.
Proof. unfold created_count. cbn. by destruct (is_created r). Qed.

(** With identifiers that differ from each other and from the keys the
    mapping has, the mapping grows by one for every request that is answered
    with an issue. *)
Lemma create_loop_counts R (c : gmap Z Z) l tr :
  (∀ x, x ∈ l → c !! id x = None) →
  NoDup (id <$> l) →
  ∃ c' evs,
    create_loop R false c l tr = (Return c', tr ++ evs) ∧
    size c' =
      (size c + created_count (answers R (length (requests tr)) (requests evs)))%nat.
Proof.
  revert c tr. induction l as [|x l IH]; intros c tr Hfresh Hnodup.
  - exists c, []. cbn. rewrite app_nil_r. split; [done|].
    unfold created_count. cbn. lia.
  - rewrite create_loop_cons, process_issue_real.
    set (r := create_issue R _ _ _ _).
    rewrite fmap_cons in Hnodup. apply NoDup_cons in Hnodup as [Hx Hnodup].
    destruct (IH (record_response c x r) (tr ++ attempt x (issue_body c x) r))
      as (c' & evs & Hrun & Hsize); [|done|].
    { intros y Hy. assert (id y ≠ id x) as Hne.
      { intros Heq. apply Hx. rewrite <-Heq. by apply list_elem_of_fmap_2. }
      destruct r; cbn; [rewrite lookup_insert_ne by done|];
        apply Hfresh; by right. }
    exists c', (attempt x (issue_body c x) r ++ evs).
    rewrite Hrun, <-app_assoc. split; [done|].
    rewrite Hsize, !requests_app, !requests_attempt, length_app.
    cbn [app answers length]. rewrite Nat.add_1_r. fold r.
    rewrite created_count_cons.
    destruct r as [n|e]; cbn [record_response is_created]; [|lia].
    rewrite map_size_insert_None by (apply Hfresh; by left). lia.
Qed.

(** X5: in a real run in which the lookup and the sort succeed, there is one
    creation request for each loaded record, the requests follow the sorted
    order, and the request for a record carries its title, its labels and a
    body that begins with its rendered body. *)
Theorem X5_requests_follow_the_sorted_order env cmd issues l :
  let args := parse_args (environ_token env) cmd in
  pygithub_installed env = true →
  dry_run args = false →
  token_missing (token args) = false →
  load_issues env (file args) = Loaded issues →
  get_repo (remote env) (token args) (repo args) = None →
  sorted_issues issues = Ok l →
  length (requests (events_of env cmd)) = length issues ∧
  ∀ i x, l !! i = Some x →
    ∃ body,
      requests (events_of env cmd) !! i = Some (issue_title x, body, labels x) ∧
      starts_with (format_issue_body x) body.
Proof.
  intros args Hinst Hdry Htok Hload Hrepo Hsort.
  assert ((negb (dry_run args) && token_missing (token args))%bool = false) as Hcheck
    by (by rewrite Htok, andb_false_r).
  unfold events_of, script. rewrite Hinst, (main_loaded env cmd issues [] Hcheck Hload).
  fold args. rewrite create_github_issues_cases, Hrepo, Hsort, Hdry.
  match goal with |- context [create_loop ?R false ∅ l ?t] =>
    destruct (create_loop_real_spec R ∅ l t) as (c' & evs & -> & Hlen & Hreq & _) end.
  cbn [snd]. rewrite !requests_app. cbn [requests app]. rewrite app_nil_r.
  split; [|done].
  rewrite Hlen. apply Permutation_length. by apply sorted_issues_perm.
Qed.

Lemma X5_witness :
  length (requests (events_of example_env example_command)) = 2%nat.
Proof.
  apply (X5_requests_follow_the_sorted_order example_env example_command
           [second_item; first_item] [first_item; second_item]);
    reflexivity.
Defined.

(** X6: after a real run of the loop that started with an empty mapping,
    every entry of the mapping is a number that the service returned to the
    request made for an item with that identifier. *)
Theorem X6_recorded_numbers_were_returned R l tr :
  ∃ c' evs,
    create_loop R false ∅ l tr = (Return c', tr ++ evs) ∧
    ∀ k n, c' !! k = Some n →
      ∃ i x t b ls,
        l !! i = Some x ∧ id x = k ∧
        requests evs !! i = Some (t, b, ls) ∧
        create_issue R (length (requests tr) + i) t b ls = Created n.
Proof.
  destruct (create_loop_real_spec R ∅ l tr) as (c' & evs & Hrun & _ & _ & Hmap & _).
  exists c', evs. split; [done|]. intros k n Hk.
  destruct (Hmap k n Hk) as [Hempty|?]; [|done]. by rewrite lookup_empty in Hempty.
Qed.

(** X7: the pauses of a run are, in order, those that follow the answers of
    the service to the creation requests of the run: one of 1 after each
    answer that is an issue, one of 60 after each failure with status 403,
    and none otherwise.  So each pause is of 1 or of 60, and there is at most
    one for each loaded record. *)
Theorem X7_pauses_follow_the_answers env cmd :
  sleeps (events_of env cmd) =
    pauses_for (answers (remote env) 0 (requests (events_of env cmd))) ∧
  Forall (λ s, s = 1 ∨ s = 60) (sleeps (events_of env cmd)) ∧
  (length (sleeps (events_of env cmd)) ≤
     match load_issues env (file (parse_args (environ_token env) cmd)) with
     | Loaded issues => length issues
     | FileNotFoundError | JSONDecodeError _ | LoadRaises _ => 0
     end)%nat.
Proof.
  set (args := parse_args (environ_token env) cmd).
  unfold events_of, script.
  destruct (pygithub_installed env); [|run_simpl; split_and!; [done..|lia]].
  destruct (negb (dry_run args) && token_missing (token args))%bool eqn:Htok.
  { unfold main. fold args. rewrite Htok. run_simpl. split_and!; [done..|lia]. }
  destruct (load_issues env (file args)) as [|msg|e|issues] eqn:Hload.
  - unfold main. fold args. rewrite Htok, Hload. run_simpl. split_and!; [done..|lia].
  - unfold main. fold args. rewrite Htok, Hload. run_simpl. split_and!; [done..|lia].
  - unfold main. fold args. rewrite Htok, Hload. run_simpl. split_and!; [done..|lia].
  - rewrite (main_loaded env cmd issues [] Htok Hload). fold args.
    rewrite create_github_issues_cases.
    destruct (get_repo (remote env) (token args) (repo args)) as [e|];
      [cbn; split_and!; [done..|lia]|].
    destruct (sorted_issues issues) as [l|e] eqn:Hsort;
      [|run_simpl; split_and!; [done..|lia]].
    assert (length l = length issues) as Hlen
      by (apply Permutation_length; by apply sorted_issues_perm).
    destruct (dry_run args).
    + rewrite create_loop_dry. cbn [snd]. rewrite !sleeps_app, !requests_app.
      assert (sleeps (concat (dry_report <$> l)) = []) as ->.
      { clear. induction l as [|x l IH]; [done|]. exact IH. }
      rewrite requests_dry_reports. cbn. split_and!; [done..|lia].
    + match goal with |- context [create_loop ?R false ∅ l ?t] =>
        destruct (create_loop_real_spec R ∅ l t)
          as (c' & evs & -> & _ & _ & _ & Hnum & Hsec & Hpause) end.
      cbn [snd]. rewrite !sleeps_app, !requests_app.
      cbn [sleeps requests app length] in Hpause |- *. rewrite !app_nil_r.
      split_and!; [done..|lia].
Qed.

Lemma X7_example :
  sleeps (events_of example_env example_command) = [1; 1] ∧
  sleeps (events_of
            (mkEnv true None (λ _, Loaded [second_item; first_item]) rate_limited_remote)
            example_command) = [60; 60].
Proof. split; reflexivity. Qed.

(** X8: when the client library is missing, the token is missing in a real
    run, or the input file is absent or not JSON, the script only prints: it
    makes no remote call and no pause, and the exit status is 1. *)
Theorem X8_local_failures_reach_no_service env cmd :
  (negb (pygithub_installed env) || local_failure env cmd)%bool = true →
  effects (events_of env cmd) = [] ∧ exit_code env cmd = 1.
Proof.
  unfold local_failure, events_of, exit_code, script.
  set (args := parse_args (environ_token env) cmd).
  destruct (pygithub_installed env); [cbn [negb orb]|by intros _].
  destruct (negb (dry_run args) && token_missing (token args))%bool eqn:Htok.
  { intros _. unfold main. fold args. by rewrite Htok. }
  destruct (load_issues env (file args)) as [|msg|e|issues] eqn:Hload; [..|done|done];
    intros _; unfold main; fold args; by rewrite Htok, Hload.
Qed.

Lemma X8_witness :
  effects (events_of missing_file_env example_command) = [] ∧
  exit_code missing_file_env example_command = 1.
Proof.
  apply (X8_local_failures_reach_no_service missing_file_env example_command).
  reflexivity.
Defined.

(** X9: when the repository lookup fails, in a real run as in a dry run, the
    script prints the error and stops with status 1 right after the lookup:
    no record is sorted, reported or submitted. *)
Theorem X9_unreachable_repository_stops_the_run env cmd issues e :
  let args := parse_args (environ_token env) cmd in
  pygithub_installed env = true →
  (negb (dry_run args) && token_missing (token args))%bool = false →
  load_issues env (file args) = Loaded issues →
  get_repo (remote env) (token args) (repo args) = Some e →
  events_of env cmd =
    [Print ("Loaded " +:+ str_of_int (Z.of_nat (length issues)) +:+
            " issues from " +:+ file args);
     GetRepo (token args) (repo args);
     Print ("Error accessing repository: " +:+ text e)] ∧
  exit_code env cmd = 1.
Proof.
  intros args Hinst Htok Hload Hrepo.
  unfold events_of, exit_code, script.
  rewrite Hinst, (main_loaded env cmd issues [] Htok Hload). fold args.
  by rewrite create_github_issues_cases, Hrepo.
Qed.

Lemma X9_witness :
  events_of unreachable_env example_command =
    [Print "Loaded 2 issues from issues.json";
     GetRepo (Some "token") "jarz/SecureSpec.AspNetCore";
     Print "Error accessing repository: Not Found"] ∧
  exit_code unreachable_env example_command = 1.
Proof.
  apply (X9_unreachable_repository_stops_the_run unreachable_env example_command
           [second_item; first_item] (mkGithubException 404 "Not Found"));
    reflexivity.
Defined.

(** X10: a dependency is only linked to an item that was handled earlier.
    When no item before [x] has the identifier [dep], the body submitted for
    [x] has no line for [dep], whether an item with that identifier comes
    later, is [x] itself, or is not in the collection at all. *)
Theorem X10_later_items_are_never_linked R before x after dep tr0 :
  dep ∈ dependencies x →
  Forall (λ y, id y ≠ dep) before →
  ∃ c' tr c1,
    create_loop R false ∅ (before ++ x :: after) tr0 = (Return c', tr) ∧
    requests tr !! (length (requests tr0) + length before)%nat =
      Some (issue_title x, issue_body c1 x, labels x) ∧
    c1 !! dep = None ∧
    issue_body c1 x =
      format_issue_body x +:+ (nl +:+ "## Related Issues" +:+ nl) +:+
      depends_on_lines c1 (filter (λ k, k ≠ dep) (dependencies x)).
Proof.
  intros Hdep Hbefore.
  destruct (create_loop_real_total R ∅ before tr0)
    as (c1 & evs1 & Hrun1 & Hlen1 & Hframe1).
  assert (c1 !! dep = None) as Hnone
    by (by rewrite (Hframe1 dep Hbefore), lookup_empty).
  rewrite create_loop_app, Hrun1, create_loop_cons, process_issue_real.
  set (r := create_issue R _ _ _ _).
  set (trx := (tr0 ++ evs1) ++ attempt x (issue_body c1 x) r).
  destruct (create_loop_real_total R (record_response c1 x r) after trx)
    as (c2 & evs2 & -> & _ & _).
  exists c2, (trx ++ evs2), c1. split_and!; [done| |done|].
  - unfold trx. rewrite !requests_app, requests_attempt, <-!app_assoc.
    cbn [app]. rewrite lookup_app_r by lia.
    replace (_ - _)%nat with (length (requests evs1)) by lia.
    by apply list_lookup_middle.
  - unfold issue_body, related_issues.
    destruct (dependencies x) as [|h deps] eqn:Hdeps; [by apply elem_of_nil in Hdep|].
    by rewrite <-(depends_on_lines_unresolved c1 (h :: deps) dep Hnone).
Qed.

Lemma X10_witness :
  ∃ c' tr c1,
    create_loop numbering_remote false ∅ ([] ++ second_item :: [first_item]) [] =
      (Return c', tr) ∧
    requests tr !! (length (requests []) + length (@nil WorkItem))%nat =
      Some (issue_title second_item, issue_body c1 second_item, labels second_item) ∧
    c1 !! 1 = None ∧
    issue_body c1 second_item =
      format_issue_body second_item +:+ (nl +:+ "## Related Issues" +:+ nl) +:+
      depends_on_lines c1 (filter (λ k, k ≠ 1) (dependencies second_item)).
Proof.
  apply (X10_later_items_are_never_linked numbering_remote
           [] second_item [first_item] 1 []).
  - apply list_elem_of_here.
  - apply Forall_nil_2.
Defined.

Lemma depends_on_lines_none_resolved (c : gmap Z Z) (deps : list Z) :
  Forall (λ k, c !! k = None) deps → depends_on_lines c deps = "".
Proof.
  induction 1 as [|k deps Hk _ IH]; [done|].
  cbn [depends_on_lines]. by rewrite Hk, IH.
Qed.

(** X11: an item that lists dependencies none of which is a key of the
    mapping is still given the Related Issues heading, with nothing under
    it. *)
Theorem X11_unresolved_dependencies_leave_an_empty_section (c : gmap Z Z) (x : WorkItem) :
  dependencies x ≠ [] →
  Forall (λ k, c !! k = None) (dependencies x) →
  issue_body c x = format_issue_body x +:+ nl +:+ "## Related Issues" +:+ nl.
Proof.
  intros Hdeps Hnone. unfold issue_body, related_issues.
  destruct (dependencies x) as [|h deps]; [done|].
  rewrite (depends_on_lines_none_resolved c (h :: deps) Hnone).
  by rewrite string_app_nil_r.
Qed.

Lemma X11_witness :
  issue_body ∅ second_item =
    format_issue_body second_item +:+ nl +:+ "## Related Issues" +:+ nl.
Proof.
  apply (X11_unresolved_dependencies_leave_an_empty_section ∅ second_item).
  - discriminate.
  - apply Forall_cons_2; [apply lookup_empty|apply Forall_nil_2].
Defined.

(** X12: in a real run over records with identifiers that differ from each
    other, the number in the closing line [Created N issues] is the number of
    requests that the service answered with an issue. *)
Theorem X12_summary_counts_the_created_issues R tok repo_name issues l tr :
  get_repo R tok repo_name = None →
  sorted_issues issues = Ok l →
  NoDup (id <$> issues) →
  ∃ evs,
    create_github_issues R tok repo_name issues false tr =
      (Return (),
       tr ++ [GetRepo tok repo_name;
              Print ("Connected to repository: " +:+ repo_name);
              Print (nl +:+ "Will create " +:+
                     str_of_int (Z.of_nat (length l)) +:+ " issues");
              Print ""] ++
       evs ++
       [Print (nl +:+ "Issue creation complete" +:+ "!");
        Print ("Created " +:+
               str_of_int (Z.of_nat
                 (created_count (answers R (length (requests tr)) (requests evs)))) +:+
               " issues");
        Print ("View at: https://github.com/" +:+ repo_name +:+ "/issues")]).
Proof.
  intros Hrepo Hsort Hnodup.
  assert (NoDup (id <$> l)) as Hnodup'.
  { by rewrite (fmap_Permutation id _ _ (sorted_issues_perm _ _ Hsort)). }
  rewrite create_github_issues_cases, Hrepo, Hsort.
  match goal with |- context [create_loop R false ∅ l ?t] =>
    destruct (create_loop_counts R ∅ l t) as (c' & evs & -> & Hsize);
      [intros; apply lookup_empty|done|] end.
  exists evs. rewrite Hsize, map_size_empty, Nat.add_0_l.
  rewrite requests_app. cbn [requests]. rewrite app_nil_r.
  by rewrite <-!app_assoc.
Qed.

Lemma X12_witness :
  ∃ evs,
    create_github_issues numbering_remote None "o/r" [second_item; first_item] false [] =
      (Return (),
       [] ++ [GetRepo None "o/r";
              Print ("Connected to repository: " +:+ "o/r");
              Print (nl +:+ "Will create " +:+
                     str_of_int (Z.of_nat (length [first_item; second_item])) +:+
                     " issues");
              Print ""] ++
       evs ++
       [Print (nl +:+ "Issue creation complete" +:+ "!");
        Print ("Created " +:+
               str_of_int (Z.of_nat
                 (created_count
                    (answers numbering_remote (length (requests [])) (requests evs)))) +:+
               " issues");
        Print ("View at: https://github.com/" +:+ "o/r" +:+ "/issues")]).
Proof.
  apply (X12_summary_counts_the_created_issues numbering_remote None "o/r"
           [second_item; first_item] [first_item; second_item] []).
  - reflexivity.
  - reflexivity.
  - cbn. apply NoDup_cons_2; [|apply NoDup_singleton].
    intros Hin%list_elem_of_singleton. discriminate Hin.
Defined.

End ScriptFurther.
